(** * BingSearch retriever (dspy/retrieve/bingsearch_rm.py)

    A shallow embedding of the [BingSearch] retriever: the adapter object,
    its constructor, [forward] and [_search], over an explicit model of the
    two things the module talks to, the HTTP client ([requests.get]) and the
    optional [bs4] import.

    Python values that come back from [response.json()] are modelled by the
    type [json]; Python [str] by [string], one [ascii] per character;
    Python [int] by [Z]; a raised exception by the [Raise] result. *)

From Stdlib Require Import ZArith String Ascii List Floats.
From stdpp Require Import gmap strings list.

Set Warnings "-register-all".
Local Open Scope string_scope.
Local Open Scope list_scope.
Local Open Scope Z_scope.

(** ** Python values and exceptions *)

(** What [json.loads] can build: [None], [bool], [int], [float], [str],
    [list] and [dict] with [str] keys. *)
Inductive json :=
| JNull
| JBool (b : bool)
| JInt (n : Z)
| JFloat (f : float)
| JStr (s : string)
| JArr (l : list json)
| JObj (d : gmap string json).

(** The exceptions the module can let escape.  [RequestException] stands for
    whatever [requests.get] raised, carrying its text. *)
Inductive exception :=
| RequestException (e : string)
| JSONDecodeError
| TypeError
| KeyError
| IndexError
| ImportError (msg : string).

Inductive result (A : Type) :=
| Ok (a : A)
| Raise (e : exception).
Arguments Ok {A} a.
Arguments Raise {A} e.

#[export] Instance result_ret : MRet result := fun A a => Ok a.
#[export] Instance result_bind : MBind result := fun A B f r =>
  match r with
  | Ok a => f a
  | Raise e => Raise e
  end.

(** ** Python operators on parsed JSON *)

(** [needle in s] on two [str]: substring test. *)
Fixpoint contains (needle s : string) : bool :=
  String.prefix needle s ||
  match s with
  | EmptyString => false
  | String _ s' => contains needle s'
  end.

(** [seq[i]] for a Python sequence, negative indices counting from the end. *)
Definition seq_index {A} (l : list A) (i : Z) : result A :=
  let n := Z.of_nat (length l) in
  let j := if i <? 0 then n + i else i in
  if (0 <=? j) && (j <? n) then
    match l !! Z.to_nat j with
    | Some x => Ok x
    | None => Raise IndexError
    end
  else Raise IndexError.

(** [key in j] for a [str] key. *)
Definition py_in (key : string) (j : json) : result bool :=
  match j with
  | JObj d => Ok (bool_decide (is_Some (d !! key)))
  | JArr l =>
      Ok (existsb (fun x => match x with
                            | JStr s => String.eqb s key
                            | _ => false
                            end) l)
  | JStr s => Ok (contains key s)
  | _ => Raise TypeError
  end.

(** [j[key]] for a [str] key. *)
Definition getitem (j : json) (key : string) : result json :=
  match j with
  | JObj d =>
      match d !! key with
      | Some v => Ok v
      | None => Raise KeyError
      end
  | _ => Raise TypeError
  end.

(** [j[i]] for an [int] index; the keys of a parsed JSON object are all
    [str], so an [int] is never among them. *)
Definition getitem_int (j : json) (i : Z) : result json :=
  match j with
  | JObj _ => Raise KeyError
  | JArr l => seq_index l i
  | JStr s => c ← seq_index (list_ascii_of_string s) i; Ok (JStr (String c EmptyString))
  | _ => Raise TypeError
  end.

(** [range(k)] *)
Definition range (k : Z) : list Z := seqZ 0 k.

(** ** The HTTP client *)

Record request := Request {
  url : json;
  headers : list (string * string);
  params : list (string * json)
}.

(** A response: its [.text], and what [.json()] returns ([None] when it
    raises). *)
Record response := Response {
  text : string;
  json_body : option json
}.

Inductive outcome :=
| Responded (r : response)
| Failed (e : string).

Definition event : Type := request * outcome.

(** ** The adapter object *)

Inductive BingResultChoice := SNIPPET | WEBPAGE.

Record BingSearch := {
  bing_search_v7_subscription_key : string;
  bing_search_v7_endpoint : string;
  bing_result_choice : BingResultChoice;
  search_market : string;
  self_k : Z              (* self.k *)
}.

(** [dotdict({"long_text": passage})] and [dspy.Prediction(passages=...)] *)
Record dotdict := Passage { long_text : json }.
Record Prediction := MkPrediction { passages : list dotdict }.

(** ** State and the monad of the methods *)

(** What is outside the object: the calls made to [requests.get] so far,
    oldest first, each with its outcome, and the lines printed. *)
Record world := World {
  calls : list event;
  stdout : list string
}.

(** The methods run on the object and the world. *)
Record state := State {
  self : BingSearch;
  env : world
}.

Definition M (St A : Type) : Type := St → result A * St.

#[export] Instance M_ret {St} : MRet (M St) := fun A a s => (Ok a, s).
#[export] Instance M_bind {St} : MBind (M St) := fun A B f m s =>
  match m s with
  | (Ok a, s') => f a s'
  | (Raise e, s') => (Raise e, s')
  end.

Definition raise {St A} (e : exception) : M St A := fun s => (Raise e, s).
Definition lift {St A} (r : result A) : M St A := fun s => (r, s).
Definition get_self : M state BingSearch := fun s => (Ok (self s), s).

Definition record_call (ev : event) (w : world) : world :=
  World (calls w ++ [ev]) (stdout w).
Definition print (line : string) (w : world) : world :=
  World (calls w) (stdout w ++ [line]).
Definition on_env (f : world → world) (s : state) : state :=
  State (self s) (f (env s)).

(** ** The module *)

Definition search_path : string := "/v7.0/search".

Definition import_error_message : string :=
  "The 'beautifulsoup4' extra is required to use BingSearchRM with the 'webpage' result choice. Install it with `pip install dspy-ai[bingsearch]`".

(** Modelled from the spec: [dspy.Retrieve.__init__], the base-class
    constructor reached through [super().__init__(k=k)], is not among the
    sources.  The spec gives construction one side effect, the endpoint
    normalisation, and [k] as the configured default count: the base
    constructor stores [k] and does nothing else. *)
Definition Retrieve__init__ (k : Z) (obj : BingSearch) : M world BingSearch :=
  mret {| bing_search_v7_subscription_key := bing_search_v7_subscription_key obj;
          bing_search_v7_endpoint := bing_search_v7_endpoint obj;
          bing_result_choice := bing_result_choice obj;
          search_market := search_market obj;
          self_k := k |}.

(** [BingSearch.__init__]: the body, on arguments already bound. *)
Definition __init__
    (bing_search_v7_subscription_key : string)
    (bing_search_v7_endpoint : string)
    (bing_result_choice : BingResultChoice)
    (search_market : string)
    (k : Z) : M world BingSearch :=
  let endpoint :=
    if negb (contains search_path bing_search_v7_endpoint)
    then (bing_search_v7_endpoint ++ search_path)%string
    else bing_search_v7_endpoint in
  Retrieve__init__ k
    {| bing_search_v7_subscription_key := bing_search_v7_subscription_key;
       bing_search_v7_endpoint := endpoint;
       bing_result_choice := bing_result_choice;
       search_market := search_market;
       self_k := k |}.

(** The call [BingSearch(...)]: Python binds the arguments to the signature
    before the body runs.  [None] is an argument the caller left out; the
    three without a default raise [TypeError] then, [search_market] and [k]
    take ["en-us"] and [3]. *)
Definition BingSearch_new
    (bing_search_v7_subscription_key : option string)
    (bing_search_v7_endpoint : option string)
    (bing_result_choice : option BingResultChoice)
    (search_market : option string)
    (k : option Z) : M world BingSearch :=
  match bing_search_v7_subscription_key, bing_search_v7_endpoint,
        bing_result_choice with
  | Some key, Some endpoint, Some choice =>
      __init__ key endpoint choice (default "en-us" search_market) (default 3 k)
  | _, _, _ => raise TypeError
  end.

(** [query_or_queries : Union[str, list[str]]] *)
Inductive query_or_queries :=
| Query (q : string)
| Queries (qs : list string).

(** Truth value of a [str]. *)
Definition truthy (q : string) : bool :=
  match q with
  | EmptyString => false
  | String _ _ => true
  end.

(** ** Vocabulary of the statements *)

(** The request [_search] sends for [query] and count [k]. *)
Definition search_request (self : BingSearch) (query : string) (k : Z) : request :=
  Request (JStr (bing_search_v7_endpoint self))
    [("Ocp-Apim-Subscription-Key", bing_search_v7_subscription_key self)]
    [("q", JStr query); ("count", JInt k); ("mkt", JStr (search_market self))].

(** The request for a result page. *)
Definition page_request (url : json) : request := Request url [] [].

(** The count a call of [forward] works with. *)
Definition effective_k (self : BingSearch) (k : option Z) : Z :=
  match k with
  | Some k => k
  | None => self_k self
  end.

(** The result entries of a well-formed provider response,
    [{"webPages": {"value": [...]}}]. *)
Definition result_entries (response_json : json) : option (list json) :=
  match response_json with
  | JObj d =>
      match d !! "webPages" with
      | Some (JObj web_pages) =>
          match web_pages !! "value" with
          | Some (JArr entries) => Some entries
          | _ => None
          end
      | _ => None
      end
  | _ => None
  end.

(** A field of a result entry. *)
Definition entry_get (field : string) (entry : json) : option json :=
  match entry with
  | JObj d => d !! field
  | _ => None
  end.

(** The exception a result carries, if any. *)
Definition raised {A} (r : result A) : option exception :=
  match r with
  | Ok _ => None
  | Raise e => Some e
  end.

(** Exceptions of the Python operators on the parsed response. *)
Definition python_error (e : exception) : Prop :=
  e = JSONDecodeError ∨ e = TypeError ∨ e = KeyError ∨ e = IndexError.

(** [s] occurs in [t]. *)
Definition substring_of (s t : string) : Prop :=
  ∃ a b, t = (a ++ s ++ b)%string.

(** [t] ends with [s]. *)
Definition ends_with (t s : string) : Prop :=
  ∃ a, t = (a ++ s)%string.

(** The calls made between two states. *)
Definition new_calls (s s' : state) (new : list event) : Prop :=
  calls (env s') = calls (env s) ++ new.

(** A failed call is the last one made, and its failure is what is raised. *)
Definition stops_at_failure (new : list event) (o : option exception) : Prop :=
  ∀ pre rq e post,
    new = pre ++ (rq, Failed e) :: post →
    post = [] ∧ o = Some (RequestException e).

(** The request carries the empty string as its query text. *)
Definition sends_empty_query (rq : request) : Prop :=
  ("q", JStr "") ∈ params rq.

(** A relation between the state before, the exception raised (if any) and
    the state after holds of every run of a computation. *)
Definition respects (R : state → option exception → state → Prop)
    {A} (m : M state A) : Prop :=
  ∀ s, R s (raised (m s).1) (m s).2.

(** The queries [forward] is given, as a sequence. *)
Definition queries_of (qq : query_or_queries) : list string :=
  match qq with
  | Query q => [q]
  | Queries qs => qs
  end.

(** The response parses to a body with at least [k] result entries, and
    [snippets] are the snippet fields of the first [k] of them, in order. *)
Definition snippet_response (k : Z) (r : response) (snippets : list json) : Prop :=
  ∃ j entries,
    json_body r = Some j ∧
    result_entries j = Some entries ∧
    k ≤ Z.of_nat (length entries) ∧
    mapM (entry_get "snippet") (take (Z.to_nat k) entries) = Some snippets.

(** The state once the call [rq] has been answered by [r]. *)
Definition answered (rq : request) (r : response) (s : state) : state :=
  on_env (record_call (rq, Responded r)) s.



(** ** Vocabulary of the further properties *)

(** The line a failed search prints. *)
Definition error_line (e : string) : string :=
  ("Error in Bing Search:" ++ String "010" " " ++ e)%string.

(** A request with neither headers nor query parameters, as the fetch of a
    result page is. *)
Definition is_page_request (rq : request) : Prop :=
  headers rq = [] ∧ params rq = [].

(** The search request of one of [queries], for the count [k]. *)
Definition is_search_for (self : BingSearch) (k : Z) (queries : list string)
    (rq : request) : Prop :=
  ∃ q, q ∈ queries ∧ rq = search_request self q k.

(** A parsed body that is no container: [None], a [bool] or a number. *)
Definition scalar (j : json) : Prop :=
  match j with
  | JNull | JBool _ | JInt _ | JFloat _ => True
  | _ => False
  end.

(** The field of a result entry each mode reads. *)
Definition field_read (choice : BingResultChoice) : string :=
  match choice with
  | SNIPPET => "snippet"
  | WEBPAGE => "displayUrl"
  end.

(** The state with the same object, the calls [new] added and the lines
    [printed] added. *)
Definition after (new : list event) (printed : list string) (s : state) : state :=
  State (self s) (World (calls (env s) ++ new) (stdout (env s) ++ printed)).

(** The response parses to a body in which the test for the results key
    succeeds. *)
Definition key_found_in (r : response) : bool :=
  match json_body r with
  | Some j =>
      match py_in "webPages" j with
      | Ok found => found
      | Raise _ => false
      end
  | None => false
  end.

(** The search was answered, with a body holding the results key. *)
Definition results_key_found (o : outcome) : bool :=
  match o with
  | Responded r => key_found_in r
  | Failed _ => false
  end.

(** ** Sample values, for the examples *)

Definition sample_entry (snippet display_url : string) : json :=
  JObj {[ "snippet" := JStr snippet; "displayUrl" := JStr display_url ]}.

Definition sample_body (entries : list json) : json :=
  JObj {[ "webPages" := JObj {[ "value" := JArr entries ]} ]}.

Definition sample_entries : list json :=
  [sample_entry "first snippet" "https://one.example";
   sample_entry "second snippet" "https://two.example";
   sample_entry "third snippet" "https://three.example"].

Definition sample_adapter (choice : BingResultChoice) : BingSearch :=
  {| bing_search_v7_subscription_key := "secret";
     bing_search_v7_endpoint := "https://api.bing.microsoft.com/v7.0/search";
     bing_result_choice := choice;
     search_market := "en-us";
     self_k := 3 |}.

Definition fresh_world : world := World [] [].

Definition sample_state (choice : BingResultChoice) : state :=
  State (sample_adapter choice) fresh_world.

(** A provider that answers every request with the same body. *)
Definition provider (body : json) : list event → request → outcome :=
  fun _ _ => Responded (Response "<p>page</p>" (Some body)).

(** A provider that answers the first [n] requests and is unreachable
    afterwards. *)
Definition provider_down_after (n : nat) (body : json)
    : list event → request → outcome :=
  fun h _ =>
    if (length h <? n)%nat
    then Responded (Response "<p>page</p>" (Some body))
    else Failed "connection timed out".

Section Runtime.

(** [requests.get]: its outcome on a request, given the calls made before
    it.  Any deterministic provider, stateful or not, is such a function. *)
Variable requests_get : list event → request → outcome.

(** [from bs4 import BeautifulSoup]: [None] when the import fails, else
    the function [fun page => BeautifulSoup(page, "html.parser").get_text()]. *)
Variable bs4 : option (string → string).

(** One call of [requests.get], recorded in the world. *)
Definition get (rq : request) : M state response := fun s =>
  let o := requests_get (calls (env s)) rq in
  let s' := on_env (record_call (rq, o)) s in
  match o with
  | Responded r => (Ok r, s')
  | Failed e => (Raise (RequestException e), s')
  end.

(** [response.json()] *)
Definition json_of (r : response) : M state json :=
  match json_body r with
  | Some j => mret j
  | None => raise JSONDecodeError
  end.

(** [try: requests.get(...) except Exception as e: print(...); raise e] *)
Definition get_or_report (rq : request) : M state response := fun s =>
  match get rq s with
  | (Raise (RequestException e), s') =>
      (Raise (RequestException e),
       on_env (print ("Error in Bing Search:" ++ String "010" " " ++ e)%string) s')
  | other => other
  end.

(** [response_json["webPages"]["value"][i][field]] *)
Definition entry_field (response_json : json) (field : string) (i : Z) : result json :=
  web_pages ← getitem response_json "webPages";
  value ← getitem web_pages "value";
  entry ← getitem_int value i;
  getitem entry field.

Definition _search (query : string) (k : Z) : M state (list json) :=
  self ← get_self;
  let headers :=
    [("Ocp-Apim-Subscription-Key", bing_search_v7_subscription_key self)] in
  let params :=
    [("q", JStr query); ("count", JInt k); ("mkt", JStr (search_market self))] in
  response ← get_or_report
    (Request (JStr (bing_search_v7_endpoint self)) headers params);
  response_json ← json_of response;
  found ← lift (py_in "webPages" response_json);
  if negb found then mret []
  else
    self ← get_self;
    match bing_result_choice self with
    | WEBPAGE =>
        urls ← lift (mapM (entry_field response_json "displayUrl") (range k));
        pages ← mapM (fun url => r ← get (Request url [] []); mret (text r)) urls;
        match bs4 with
        | Some get_text => mret (map (fun page => JStr (get_text page)) pages)
        | None => raise (ImportError import_error_message)
        end
    | SNIPPET =>
        lift (mapM (entry_field response_json "snippet") (range k))
    end.

(** The loop of [forward]: [passages] is the accumulator. *)
Fixpoint forward_loop (k : Z) (queries : list string) (passages : list dotdict)
    : M state (list dotdict) :=
  match queries with
  | [] => mret passages
  | query :: queries =>
      results ← _search query k;
      forward_loop k queries (passages ++ map Passage results)
  end.

Definition forward (query_or_queries : query_or_queries) (k : option Z)
    : M state Prediction :=
  self ← get_self;
  let k := match k with Some k => k | None => self_k self end in
  let queries :=
    match query_or_queries with
    | Query q => [q]
    | Queries qs => qs
    end in
  let queries := filter (fun q => truthy q = true) queries in
  passages ← forward_loop k queries [];
  mret (MkPrediction passages).

(** The steps of [_search], named for the proofs: the page fetches of the
    WEBPAGE branch, the WEBPAGE branch, and what follows the test for the
    results key. *)
Definition fetch_pages (urls : list json) : M state (list string) :=
  mapM (fun url => r ← get (page_request url); mret (text r)) urls.

Definition webpage_results (response_json : json) (k : Z) : M state (list json) :=
  urls ← lift (mapM (entry_field response_json "displayUrl") (range k));
  pages ← fetch_pages urls;
  match bs4 with
  | Some get_text => mret (map (fun page => JStr (get_text page)) pages)
  | None => raise (ImportError import_error_message)
  end.

Definition snippet_results (response_json : json) (k : Z) : M state (list json) :=
  lift (mapM (entry_field response_json "snippet") (range k)).

Definition read_response (response : response) (k : Z) : M state (list json) :=
  response_json ← json_of response;
  found ← lift (py_in "webPages" response_json);
  if negb found then mret []
  else
    self ← get_self;
    match bing_result_choice self with
    | WEBPAGE => webpage_results response_json k
    | SNIPPET => snippet_results response_json k
    end.

(** The provider answers the searches for [queries], one after the
    other from the history [h], each with a snippet response. *)
Inductive provider_answers (self : BingSearch) (k : Z)
    : list event → list string → list (list json) → Prop :=
| answers_nil h : provider_answers self k h [] []
| answers_cons h q queries r snippets rest :
    requests_get h (search_request self q k) = Responded r →
    snippet_response k r snippets →
    provider_answers self k
      (h ++ [(search_request self q k, Responded r)]) queries rest →
    provider_answers self k h (q :: queries) (snippets :: rest).

(** Each call in [new], made after the history [h], is recorded with the
    outcome [requests.get] gave it. *)
Definition recorded (h new : list event) : Prop :=
  ∀ pre ev post,
    new = pre ++ ev :: post → ev.2 = requests_get (h ++ pre) ev.1.

(** The pages at [urls] are fetched one after the other from the history
    [h], each answered; [texts] are their [.text], [h'] the history after. *)
Inductive pages_answered
    : list event → list json → list string → list event → Prop :=
| pages_nil h : pages_answered h [] [] h
| pages_cons h u urls r texts h' :
    requests_get h (page_request u) = Responded r →
    pages_answered (h ++ [(page_request u, Responded r)]) urls texts h' →
    pages_answered h (u :: urls) (text r :: texts) h'.

(** The searches for [queries], run one after the other from a state, all
    return: each with its results, and with whether its response held the
    results key. *)
Inductive searches_return (k : Z)
    : state → list string → list (bool * list json) → state → Prop :=
| searches_nil s : searches_return k s [] [] s
| searches_cons s q queries results s1 rest s' :
    _search q k s = (Ok results, s1) →
    searches_return k s1 queries rest s' →
    searches_return k s (q :: queries)
      ((results_key_found
          (requests_get (calls (env s)) (search_request (self s) q k)),
        results) :: rest) s'.

(** ** Running the monad *)

Lemma run_bind {St A B} (m : M St A) (f : A → M St B) (s : St) :
  (m ≫= f) s =
  match m s with
  | (Ok a, s') => f a s'
  | (Raise e, s') => (Raise e, s')
  end.
Proof. reflexivity. Qed.

Lemma run_mapM_cons {St A B} (f : A → M St B) x l :
  mapM f (x :: l) = (y ← f x; ys ← mapM f l; mret (y :: ys)).
Proof. reflexivity. Qed.

Lemma mapM_result_cons {A B} (f : A → result B) x l :
  mapM f (x :: l) = (y ← f x; ys ← mapM f l; Ok (y :: ys)).
Proof. reflexivity. Qed.

Lemma range_nonpos k : k ≤ 0 → range k = [].
Proof.
  intros Hk. unfold range, seqZ.
  replace (Z.to_nat k) with 0%nat by lia. reflexivity.
Qed.

(** ** Which exceptions the Python operators raise *)

Lemma seq_index_raises {A} (l : list A) i e :
  seq_index l i = Raise e → e = IndexError.
Proof.
  unfold seq_index. intros H.
  repeat case_match; congruence.
Qed.

Lemma entry_field_raises j field i e :
  entry_field j field i = Raise e → python_error e.
Proof.
  unfold entry_field, getitem, getitem_int, python_error. intros H.
  destruct j; simpl in H; try (inversion H; tauto).
  destruct (d !! "webPages") as [wp|]; simpl in H; [|inversion H; tauto].
  destruct wp; simpl in H; try (inversion H; tauto).
  destruct (d0 !! "value") as [v|]; simpl in H; [|inversion H; tauto].
  destruct v; simpl in H; try (inversion H; tauto).
  - destruct (seq_index (list_ascii_of_string s) i) eqn:E; simpl in H.
    + inversion H; tauto.
    + apply seq_index_raises in E. inversion H; subst; tauto.
  - destruct (seq_index l i) as [x|e'] eqn:E; simpl in H.
    + destruct x; try (inversion H; tauto).
      destruct (d1 !! field); inversion H; tauto.
    + apply seq_index_raises in E. inversion H; subst; tauto.
Qed.

Lemma mapM_result_raises {A B} (f : A → result B) (P : exception → Prop) l e :
  (∀ x e, f x = Raise e → P e) → mapM f l = Raise e → P e.
Proof.
  intros Hf. induction l as [|x l IH]; [discriminate|].
  rewrite mapM_result_cons. destruct (f x) eqn:E; simpl.
  - destruct (mapM f l); simpl; [discriminate|].
    intros [= <-]. by apply IH.
  - intros [= <-]. by eapply Hf.
Qed.

Lemma py_in_raises key j e : py_in key j = Raise e → python_error e.
Proof. destruct j; simpl; intros [= <-]; unfold python_error; tauto. Qed.

(** ** The steps of [_search] *)

Lemma _search_unfold q k s :
  _search q k s =
  (response ← get_or_report (search_request (self s) q k);
   read_response response k) s.
Proof. reflexivity. Qed.

Lemma get_self_eq rq s : self (get rq s).2 = self s.
Proof. unfold get. by destruct (requests_get _ _). Qed.

Lemma fetch_pages_cons u urls :
  fetch_pages (u :: urls) =
  (page ← (r ← get (page_request u); mret (text r));
   pages ← fetch_pages urls;
   mret (page :: pages)).
Proof. reflexivity. Qed.

Lemma fetch_pages_self urls s : self (fetch_pages urls s).2 = self s.
Proof.
  revert s. induction urls as [|u urls IH]; intros s; [done|].
  rewrite fetch_pages_cons, !run_bind.
  pose proof (get_self_eq (page_request u) s) as Hg.
  destruct (get (page_request u) s) as [[r|e] s1]; simpl in *; [|done].
  rewrite run_bind. specialize (IH s1).
  destruct (fetch_pages urls s1) as [[ps|e] s2]; simpl in *; congruence.
Qed.

(** ** Properties every run of [forward] has

    A relation [R s o s'] between the state before, the exception raised
    (if any) and the state after, that is closed under sequencing and holds
    of each primitive step, holds of [_search] and [forward]. *)

Section Invariant.

Variable R : state → option exception → state → Prop.

Hypothesis R_ok : ∀ s, R s None s.
Hypothesis R_seq : ∀ s s' s'' o, R s None s' → R s' o s'' → R s o s''.
Hypothesis R_python : ∀ s e, python_error e → R s (Some e) s.
Hypothesis R_import : ∀ s,
  bing_result_choice (self s) = WEBPAGE → bs4 = None →
  R s (Some (ImportError import_error_message)) s.
Hypothesis R_search : ∀ q k,
  truthy q = true → ∀ s, R s (raised (get (search_request (self s) q k) s).1)
                             (get (search_request (self s) q k) s).2.
Hypothesis R_page : ∀ u, respects R (get (page_request u)).
Hypothesis R_print : ∀ s o s' line,
  R s o s' → R s o (on_env (print line) s').

Lemma respects_ret {A} (a : A) : respects R (mret a).
Proof. intros s. apply R_ok. Qed.

Lemma respects_bind {A B} (m : M state A) (f : A → M state B) :
  respects R m → (∀ a, respects R (f a)) → respects R (m ≫= f).
Proof.
  intros Hm Hf s. rewrite run_bind.
  specialize (Hm s). destruct (m s) as [[a|e] s']; simpl in *; [|done].
  eapply R_seq; [exact Hm|apply Hf].
Qed.

Lemma respects_lift {A} (r : result A) :
  (∀ e, r = Raise e → python_error e) → respects R (lift r).
Proof.
  intros Hr s. unfold lift; simpl. destruct r as [a|e]; simpl.
  - apply R_ok.
  - apply R_python. by apply Hr.
Qed.

Lemma respects_mapM {A B} (f : A → M state B) l :
  (∀ x, respects R (f x)) → respects R (mapM f l).
Proof.
  intros Hf. induction l as [|x l IH].
  - apply (respects_ret []).
  - rewrite run_mapM_cons. apply respects_bind; [apply Hf|]. intros y.
    apply respects_bind; [apply IH|]. intros ys. apply respects_ret.
Qed.

Lemma respects_json_of r : respects R (json_of r).
Proof.
  unfold json_of. destruct (json_body r).
  - apply respects_ret.
  - intros s. apply R_python. unfold python_error. tauto.
Qed.

Lemma respects_fetch_pages urls : respects R (fetch_pages urls).
Proof.
  apply respects_mapM. intros u. apply respects_bind; [apply R_page|].
  intros r. apply respects_ret.
Qed.

Lemma respects_webpage_results j k s :
  bing_result_choice (self s) = WEBPAGE →
  R s (raised (webpage_results j k s).1) (webpage_results j k s).2.
Proof.
  intros Hchoice. unfold webpage_results. rewrite run_bind.
  unfold lift.
  destruct (mapM (entry_field j "displayUrl") (range k)) as [urls|e] eqn:E.
  2:{ simpl. apply R_python. revert E. apply mapM_result_raises.
      apply entry_field_raises. }
  rewrite run_bind. pose proof (respects_fetch_pages urls s) as Hp.
  pose proof (fetch_pages_self urls s) as Hself.
  destruct (fetch_pages urls s) as [[pages|e] s2]; simpl in *; [|exact Hp].
  destruct bs4 as [get_text|] eqn:Ebs4; simpl; [exact Hp|].
  eapply R_seq; [exact Hp|]. apply R_import; [|done]. by rewrite Hself.
Qed.

Lemma respects_read_response r k : respects R (read_response r k).
Proof.
  unfold read_response.
  apply respects_bind; [apply respects_json_of|]. intros j.
  apply respects_bind; [apply respects_lift, py_in_raises|]. intros found.
  destruct found; simpl; [|apply respects_ret].
  intros s. rewrite run_bind. cbn [get_self].
  destruct (bing_result_choice (self s)) eqn:Echoice.
  - apply respects_lift. intros e. apply mapM_result_raises.
    apply entry_field_raises.
  - by apply respects_webpage_results.
Qed.

Lemma respects__search q k : truthy q = true → respects R (_search q k).
Proof.
  intros Hq s. rewrite _search_unfold, run_bind.
  pose proof (R_search q k Hq s) as Hget. unfold get_or_report.
  destruct (get (search_request (self s) q k) s) as [[r|e] s1] eqn:Eget;
    simpl in Hget.
  2:{ destruct e; simpl; try done. by apply R_print. }
  eapply R_seq; [exact Hget|]. apply respects_read_response.
Qed.

Lemma respects_forward_loop k queries passages :
  Forall (fun q => truthy q = true) queries →
  respects R (forward_loop k queries passages).
Proof.
  intros Hqs. revert passages.
  induction Hqs as [|q queries Hq _ IH]; intros passages; simpl.
  - apply respects_ret.
  - apply respects_bind; [by apply respects__search|]. intros results.
    apply IH.
Qed.

Lemma respects_forward qq k : respects R (forward qq k).
Proof.
  intros s. unfold forward. rewrite run_bind. cbn [get_self].
  revert s. intros s.
  match goal with |- context [forward_loop ?k' ?qs []] =>
    pose proof (respects_forward_loop k' qs []) as Hloop end.
  rewrite run_bind. 
  match type of Hloop with ?P → _ => assert P as HP end.
  { apply Forall_forall. intros q Hin. by apply list_elem_of_filter in Hin as [? _]. }
  specialize (Hloop HP s).
  destruct (forward_loop _ _ _ s) as [[ps|e] s1]; simpl in *; done.
Qed.

End Invariant.

(** ** Instances *)

Lemma get_calls rq s :
  calls (env (get rq s).2) =
  calls (env s) ++ [(rq, requests_get (calls (env s)) rq)].
Proof. unfold get. by destruct (requests_get _ _). Qed.

Lemma get_raised rq s :
  raised (get rq s).1 =
  match requests_get (calls (env s)) rq with
  | Responded _ => None
  | Failed e => Some (RequestException e)
  end.
Proof. unfold get. by destruct (requests_get _ _). Qed.

(** The object is the same after [forward]. *)
Lemma forward_self qq k s : self (forward qq k s).2 = self s.
Proof.
  apply (respects_forward (fun s _ s' => self s' = self s)); clear; try done.
  - congruence.
  - intros q k _ s. apply get_self_eq.
  - intros u s. apply get_self_eq.
Qed.

Lemma stops_at_failure_nil o : stops_at_failure [] o.
Proof. intros pre rq e post H. by destruct pre. Qed.

Lemma stops_at_failure_app new1 new2 o :
  stops_at_failure new1 None → stops_at_failure new2 o →
  stops_at_failure (new1 ++ new2) o.
Proof.
  intros H1 H2 pre rq e post Heq.
  apply app_eq_inv in Heq as [(mid & -> & Hpost)|(mid & -> & ->)].
  - destruct mid as [|ev mid]; simpl in Hpost.
    + apply (H2 [] rq e post). by rewrite Hpost.
    + injection Hpost as <- _.
      by destruct (H1 pre rq e mid) as [_ ?].
  - by apply (H2 mid rq e post).
Qed.

Lemma stops_at_failure_get rq s :
  stops_at_failure [(rq, requests_get (calls (env s)) rq)]
    (raised (get rq s).1).
Proof.
  intros pre rq' e post Heq. rewrite get_raised.
  destruct pre as [|ev pre].
  - injection Heq as -> -> <-. done.
  - injection Heq as _ Heq. by destruct pre.
Qed.

(** A failed call ends the run of [forward] with that failure. *)
Lemma forward_stops qq k s :
  ∃ new, new_calls s (forward qq k s).2 new ∧
         stops_at_failure new (raised (forward qq k s).1).
Proof.
  apply (respects_forward
           (fun s o s' => ∃ new, new_calls s s' new ∧ stops_at_failure new o));
    clear qq k s.
  - intros s. exists []. split; [|apply stops_at_failure_nil].
    unfold new_calls. by rewrite app_nil_r.
  - intros s s' s'' o (new1 & Hc1 & Hs1) (new2 & Hc2 & Hs2).
    exists (new1 ++ new2). split; [|by apply stops_at_failure_app].
    unfold new_calls in *. by rewrite Hc2, Hc1, app_assoc.
  - intros s e _. exists []. split; [|apply stops_at_failure_nil].
    unfold new_calls. by rewrite app_nil_r.
  - intros s _ _. exists []. split; [|apply stops_at_failure_nil].
    unfold new_calls. by rewrite app_nil_r.
  - intros q k _ s. eexists. split; [apply get_calls|].
    apply stops_at_failure_get.
  - intros u s. eexists. split; [apply get_calls|].
    apply stops_at_failure_get.
  - intros s o s' line (new & Hc & Hs). by exists new.
Qed.

Lemma recorded_nil h : recorded h [].
Proof. intros pre ev post H. by destruct pre. Qed.

Lemma recorded_app h new1 new2 :
  recorded h new1 → recorded (h ++ new1) new2 → recorded h (new1 ++ new2).
Proof.
  intros H1 H2 pre ev post Heq.
  apply app_eq_inv in Heq as [(mid & -> & Hpost)|(mid & -> & ->)].
  - destruct mid as [|ev' mid]; simpl in Hpost.
    + rewrite app_nil_r in H2. rewrite <- (app_nil_r (h ++ pre)).
      apply (H2 [] ev post). by rewrite Hpost.
    + injection Hpost as <- _. by apply (H1 pre ev mid).
  - rewrite app_assoc. by apply (H2 mid ev post).
Qed.

Lemma recorded_get rq s :
  recorded (calls (env s)) [(rq, requests_get (calls (env s)) rq)].
Proof.
  intros pre ev post Heq. destruct pre as [|ev' pre].
  - injection Heq as <- <-. by rewrite app_nil_r.
  - injection Heq as _ Heq. by destruct pre.
Qed.

(** The calls of [forward] are recorded with the outcomes [requests.get]
    gave them. *)
Lemma forward_recorded qq k s :
  ∃ new, new_calls s (forward qq k s).2 new ∧ recorded (calls (env s)) new.
Proof.
  apply (respects_forward
           (fun s (_ : option exception) s' =>
              ∃ new, new_calls s s' new ∧ recorded (calls (env s)) new));
    clear qq k s.
  - intros s. exists []. split; [|apply recorded_nil].
    unfold new_calls. by rewrite app_nil_r.
  - intros s s' s'' _ (new1 & Hc1 & Hs1) (new2 & Hc2 & Hs2).
    exists (new1 ++ new2). unfold new_calls in *. split.
    + by rewrite Hc2, Hc1, app_assoc.
    + apply recorded_app; [done|]. by rewrite <- Hc1.
  - intros s e _. exists []. split; [|apply recorded_nil].
    unfold new_calls. by rewrite app_nil_r.
  - intros s _ _. exists []. split; [|apply recorded_nil].
    unfold new_calls. by rewrite app_nil_r.
  - intros q k _ s. eexists. split; [apply get_calls|apply recorded_get].
  - intros u s. eexists. split; [apply get_calls|apply recorded_get].
  - intros s o s' line (new & Hc & Hs). by exists new.
Qed.

(** No call of [forward] carries the empty string as its query text. *)
Lemma forward_sends_truthy qq k s :
  ∃ new, new_calls s (forward qq k s).2 new ∧
         Forall (fun ev => ¬ sends_empty_query ev.1) new.
Proof.
  apply (respects_forward
           (fun s (_ : option exception) s' =>
              ∃ new, new_calls s s' new ∧
                     Forall (fun ev => ¬ sends_empty_query ev.1) new));
    clear qq k s.
  - intros s. exists []. split; [|done].
    unfold new_calls. by rewrite app_nil_r.
  - intros s s' s'' _ (new1 & Hc1 & Hs1) (new2 & Hc2 & Hs2).
    exists (new1 ++ new2). split; [|by apply Forall_app].
    unfold new_calls in *. by rewrite Hc2, Hc1, app_assoc.
  - intros s e _. exists []. split; [|done].
    unfold new_calls. by rewrite app_nil_r.
  - intros s _ _. exists []. split; [|done].
    unfold new_calls. by rewrite app_nil_r.
  - intros q k Hq s. eexists. split; [apply get_calls|].
    apply Forall_singleton. unfold sends_empty_query. simpl.
    rewrite !elem_of_cons, elem_of_nil.
    intros [H|[H|[H|[]]]]; try discriminate H.
    injection H as <-. discriminate Hq.
  - intros u s. eexists. split; [apply get_calls|].
    apply Forall_singleton. unfold sends_empty_query. simpl.
    apply not_elem_of_nil.
  - intros s o s' line (new & Hc & Hs). by exists new.
Qed.

(** [ImportError] escapes [forward] only from the WEBPAGE branch, and only
    when [bs4] cannot be imported. *)
Lemma forward_import_error qq k s msg :
  (forward qq k s).1 = Raise (ImportError msg) →
  bing_result_choice (self s) = WEBPAGE ∧ bs4 = None.
Proof.
  intros Hr.
  cut (self (forward qq k s).2 = self s ∧
       ∀ msg, raised (forward qq k s).1 = Some (ImportError msg) →
              bing_result_choice (self s) = WEBPAGE ∧ bs4 = None).
  { intros [_ H]. apply (H msg). by rewrite Hr. }
  clear Hr.
  apply (respects_forward
           (fun s o s' =>
              self s' = self s ∧
              ∀ msg, o = Some (ImportError msg) →
                     bing_result_choice (self s) = WEBPAGE ∧ bs4 = None));
    clear qq k s msg.
  - done.
  - intros s s' s'' o [Hs1 _] [Hs2 Ho]. split; [congruence|].
    intros msg Hmsg. rewrite <- Hs1. by apply (Ho msg).
  - intros s e He. split; [done|]. intros msg [= ->].
    unfold python_error in He. by destruct He as [?|[?|[?|?]]].
  - done.
  - intros q k _ s. split; [apply get_self_eq|].
    rewrite get_raised. intros msg. by destruct (requests_get _ _).
  - intros u s. split; [apply get_self_eq|].
    rewrite get_raised. intros msg. by destruct (requests_get _ _).
  - intros s o s' line [Hs Ho]. done.
Qed.

(** ** Reading the entries of a well-formed response *)

Lemma seq_index_lookup {A} (l : list A) (i : nat) x :
  l !! i = Some x → seq_index l (Z.of_nat i) = Ok x.
Proof.
  intros Hl. pose proof (lookup_lt_Some _ _ _ Hl) as Hlt.
  unfold seq_index.
  destruct (Z.ltb_spec (Z.of_nat i) 0); [lia|].
  destruct (Z.leb_spec 0 (Z.of_nat i)); [|lia].
  destruct (Z.ltb_spec (Z.of_nat i) (Z.of_nat (length l))); [|lia].
  simpl. by rewrite Nat2Z.id, Hl.
Qed.

Lemma seq_index_beyond {A} (l : list A) (i : nat) :
  (length l ≤ i)%nat → seq_index l (Z.of_nat i) = Raise IndexError.
Proof.
  intros Hge. unfold seq_index.
  destruct (Z.ltb_spec (Z.of_nat i) 0); [lia|].
  destruct (Z.ltb_spec (Z.of_nat i) (Z.of_nat (length l))); [lia|].
  by rewrite andb_false_r.
Qed.

Lemma entry_field_entries j entries field i :
  result_entries j = Some entries →
  entry_field j field i = (entry ← seq_index entries i; getitem entry field).
Proof.
  unfold result_entries, entry_field. intros H.
  destruct j; try discriminate. simpl.
  destruct (d !! "webPages") as [[]|]; try discriminate. simpl.
  destruct (_ !! "value") as [[]|]; try discriminate. simpl.
  by injection H as ->.
Qed.

Lemma getitem_entry_get entry field v :
  entry_get field entry = Some v → getitem entry field = Ok v.
Proof. destruct entry; try discriminate. simpl. by intros ->. Qed.

Lemma seqZ_S m n :
  seqZ (Z.of_nat m) (Z.of_nat (S n)) =
  Z.of_nat m :: seqZ (Z.of_nat (S m)) (Z.of_nat n).
Proof.
  rewrite seqZ_cons by lia. f_equal. f_equal; lia.
Qed.

(** Enough entries, each with the field: the comprehension over
    [range(k)] reads them in order. *)
Lemma mapM_entry_field_ok j entries field :
  result_entries j = Some entries →
  ∀ n m vals,
    mapM (entry_get field) (take n (drop m entries)) = Some vals →
    (m + n ≤ length entries)%nat →
    mapM (entry_field j field) (seqZ (Z.of_nat m) (Z.of_nat n)) = Ok vals.
Proof.
  intros Hj. induction n as [|n IH]; intros m vals Hvals Hlen.
  - simpl in Hvals. injection Hvals as <-. reflexivity.
  - destruct (lookup_lt_is_Some_2 entries m) as [x Hx]; [lia|].
    rewrite (drop_S _ _ _ Hx) in Hvals. simpl in Hvals.
    rewrite seqZ_S, mapM_result_cons.
    rewrite (entry_field_entries _ _ _ _ Hj), (seq_index_lookup _ _ _ Hx).
    simpl. destruct (entry_get field x) as [v|] eqn:Ev; [|discriminate].
    rewrite (getitem_entry_get _ _ _ Ev). simpl in *.
    destruct (mapM (entry_get field) (take n (drop (S m) entries)))
      as [vs|] eqn:Evs; [|discriminate].
    injection Hvals as <-.
    rewrite (IH (S m) vs Evs) by lia. reflexivity.
Qed.

(** Fewer entries than [k]: the comprehension indexes past the end. *)
Lemma mapM_entry_field_short j entries field :
  result_entries j = Some entries →
  Forall (fun entry => is_Some (entry_get field entry)) entries →
  ∀ n m,
    (m ≤ length entries)%nat → (length entries < m + n)%nat →
    mapM (entry_field j field) (seqZ (Z.of_nat m) (Z.of_nat n)) =
    Raise IndexError.
Proof.
  intros Hj Hall. induction n as [|n IH]; intros m Hm Hlen; [lia|].
  rewrite seqZ_S, mapM_result_cons, (entry_field_entries _ _ _ _ Hj).
  destruct (decide (m = length entries)) as [->|Hne].
  - by rewrite seq_index_beyond.
  - destruct (lookup_lt_is_Some_2 entries m) as [x Hx]; [lia|].
    rewrite (seq_index_lookup _ _ _ Hx). simpl.
    rewrite Forall_forall in Hall.
    destruct (Hall x) as [v Hv]; [by eapply list_elem_of_lookup_2|].
    rewrite (getitem_entry_get _ _ _ Hv). simpl.
    rewrite (IH (S m)) by lia. reflexivity.
Qed.

Lemma range_eq k : range k = seqZ (Z.of_nat 0) (Z.of_nat (Z.to_nat k)).
Proof.
  unfold range. destruct (Z.le_gt_cases k 0).
  - rewrite !seqZ_nil by lia. done.
  - by rewrite Z2Nat.id by lia.
Qed.

(** ** One search, step by step *)

Lemma _search_responded q k s r :
  requests_get (calls (env s)) (search_request (self s) q k) = Responded r →
  _search q k s =
  read_response r k (answered (search_request (self s) q k) r s).
Proof.
  intros H. rewrite _search_unfold, run_bind.
  unfold get_or_report, get. by rewrite H.
Qed.

Lemma _search_failed q k s e :
  requests_get (calls (env s)) (search_request (self s) q k) = Failed e →
  (_search q k s).1 = Raise (RequestException e).
Proof.
  intros H. rewrite _search_unfold, run_bind.
  unfold get_or_report, get. by rewrite H.
Qed.

Lemma read_response_absent r k s j :
  json_body r = Some j → py_in "webPages" j = Ok false →
  read_response r k s = (Ok [], s).
Proof.
  intros Hj Hin. unfold read_response, json_of. rewrite Hj.
  rewrite run_bind. simpl. rewrite run_bind. unfold lift. by rewrite Hin.
Qed.

Lemma read_response_present r k s j :
  json_body r = Some j → py_in "webPages" j = Ok true →
  read_response r k s =
  match bing_result_choice (self s) with
  | WEBPAGE => webpage_results j k s
  | SNIPPET => snippet_results j k s
  end.
Proof.
  intros Hj Hin. unfold read_response, json_of. rewrite Hj.
  rewrite run_bind. simpl. rewrite run_bind. unfold lift. rewrite Hin.
  by destruct (bing_result_choice (self s)) eqn:E; simpl; rewrite run_bind; simpl; rewrite E.
Qed.

Lemma py_in_entries j entries :
  result_entries j = Some entries → py_in "webPages" j = Ok true.
Proof.
  unfold result_entries. destruct j; try discriminate.
  destruct (d !! "webPages") eqn:E; [|discriminate]. intros _.
  unfold py_in. rewrite E. by rewrite bool_decide_eq_true_2.
Qed.

Lemma forward_unfold qq k s :
  forward qq k s =
  (passages ← forward_loop (effective_k (self s) k)
                (filter (fun q => truthy q = true) (queries_of qq)) [];
   mret (MkPrediction passages)) s.
Proof. reflexivity. Qed.

(** A query whose search returns no result leaves the loop where it was,
    one call later. *)
Lemma forward_skip q qs k s s1 :
  truthy q = true →
  _search q (effective_k (self s) k) s = (Ok [], s1) →
  self s1 = self s →
  forward (Queries (q :: qs)) k s = forward (Queries qs) k s1.
Proof.
  intros Hq Hsearch Hself. rewrite !forward_unfold, Hself. simpl queries_of.
  rewrite filter_cons_True by done.
  rewrite !run_bind. simpl forward_loop. rewrite run_bind, Hsearch.
  reflexivity.
Qed.

Lemma answered_self rq r s : self (answered rq r s) = self s.
Proof. reflexivity. Qed.

Lemma answered_calls rq r s :
  calls (env (answered rq r s)) = calls (env s) ++ [(rq, Responded r)].
Proof. reflexivity. Qed.

Lemma filter_truthy_id qs :
  Forall (fun q => q ≠ "") qs → filter (fun q => truthy q = true) qs = qs.
Proof.
  induction 1 as [|q qs Hq _ IH]; [done|].
  rewrite filter_cons_True, IH; [done|]. by destruct q.
Qed.

Lemma snippet_response_length k r snippets :
  snippet_response k r snippets → length snippets = Z.to_nat k.
Proof.
  intros (j & entries & _ & _ & Hk & Hs).
  apply length_mapM in Hs. rewrite <- Hs, length_take. lia.
Qed.

Lemma provider_answers_lengths self0 k h qs sns :
  provider_answers self0 k h qs sns →
  length sns = length qs ∧
  Forall (fun snippets => length snippets = Z.to_nat k) sns.
Proof.
  induction 1 as [|h q qs r sn sns _ Hr _ [IH1 IH2]]; [done|].
  split; [simpl; congruence|].
  constructor; [by eapply snippet_response_length|done].
Qed.

Lemma snippet_results_ok j entries snippets k s :
  result_entries j = Some entries →
  k ≤ Z.of_nat (length entries) →
  mapM (entry_get "snippet") (take (Z.to_nat k) entries) = Some snippets →
  snippet_results j k s = (Ok snippets, s).
Proof.
  intros Hj Hk Hs. unfold snippet_results, lift. f_equal.
  rewrite range_eq. apply (mapM_entry_field_ok _ _ _ Hj); [done|lia].
Qed.

Lemma forward_loop_snippets self0 k h qs sns :
  provider_answers self0 k h qs sns →
  bing_result_choice self0 = SNIPPET →
  ∀ s acc,
    self s = self0 → calls (env s) = h →
    ∃ s', forward_loop k qs acc s =
            (Ok (acc ++ map Passage (concat sns)), s') ∧
          map fst (calls (env s')) =
            map fst h ++ map (fun q => search_request self0 q k) qs.
Proof.
  intros Hans Hchoice.
  induction Hans as [h|h q qs r sn sns Hget Hr _ IH]; intros s acc Hself Hh.
  - exists s. simpl. rewrite !app_nil_r. by rewrite Hh.
  - simpl forward_loop. rewrite run_bind.
    rewrite <- Hself, <- Hh in Hget.
    rewrite (_search_responded _ _ _ _ Hget).
    destruct Hr as (j & entries & Hj & Hentries & Hk & Hsn).
    rewrite (read_response_present _ _ _ _ Hj (py_in_entries _ _ Hentries)).
    rewrite answered_self, Hself, Hchoice.
    rewrite (snippet_results_ok _ _ _ _ _ Hentries Hk Hsn).
    destruct (IH (answered (search_request (self s) q k) r s)
                 (acc ++ map Passage sn)) as (s' & Hloop & Hcalls).
    { by rewrite answered_self. }
    { by rewrite answered_calls, Hh, Hself. }
    exists s'. rewrite Hself in Hloop. rewrite Hloop. split.
    + simpl. by rewrite map_app, app_assoc.
    + rewrite Hcalls, map_app. simpl. by rewrite <- app_assoc.
Qed.

(** ** The claims on [forward] and [_search] *)

(** C2. SNIPPET mode, a sequence of non-empty queries, and a provider that
    answers each search with a body holding the results key and at least
    [k] entries with a snippet field: [forward] returns, for each query in
    input order, the snippet fields of its first [k] entries in the order
    of the response, unmodified; that is [k] passages per query.  One
    search request is sent per query, in order. *)
Theorem forward_snippet_mode qs k s snippets :
  Forall (fun q => q ≠ "") qs →
  bing_result_choice (self s) = SNIPPET →
  provider_answers (self s) (effective_k (self s) k) (calls (env s)) qs snippets →
  (forward (Queries qs) k s).1 =
    Ok (MkPrediction (map Passage (concat snippets))) ∧
  length snippets = length qs ∧
  Forall (fun per_query =>
            length per_query = Z.to_nat (effective_k (self s) k)) snippets ∧
  map fst (calls (env (forward (Queries qs) k s).2)) =
    map fst (calls (env s)) ++
    map (fun q => search_request (self s) q (effective_k (self s) k)) qs.
Proof.
  intros Hqs Hchoice Hans.
  destruct (provider_answers_lengths _ _ _ _ _ Hans) as [Hlen Hall].
  destruct (forward_loop_snippets _ _ _ _ _ Hans Hchoice s [] eq_refl eq_refl)
    as (s' & Hloop & Hcalls).
  rewrite forward_unfold, run_bind. simpl queries_of.
  rewrite (filter_truthy_id _ Hqs), Hloop. simpl. done.
Qed.

(** C6. A query whose response parses to a JSON object without the
    ["webPages"] key contributes no passage and raises nothing: its search
    returns the empty list after its one call, and [forward] carries on
    with the remaining queries from there. *)
Theorem forward_results_key_absent q qs k s r d :
  truthy q = true →
  requests_get (calls (env s))
    (search_request (self s) q (effective_k (self s) k)) = Responded r →
  json_body r = Some (JObj d) →
  d !! "webPages" = None →
  _search q (effective_k (self s) k) s =
    (Ok [], answered (search_request (self s) q (effective_k (self s) k)) r s) ∧
  forward (Queries (q :: qs)) k s =
    forward (Queries qs) k
      (answered (search_request (self s) q (effective_k (self s) k)) r s).
Proof.
  intros Hq Hget Hj Hd.
  assert (_search q (effective_k (self s) k) s =
          (Ok [], answered (search_request (self s) q (effective_k (self s) k)) r s))
    as Hsearch.
  { rewrite (_search_responded _ _ _ _ Hget).
    apply (read_response_absent _ _ _ _ Hj). simpl. rewrite Hd.
    by rewrite bool_decide_eq_false_2 by (by intros [? ?]). }
  split; [exact Hsearch|].
  by apply forward_skip.
Qed.

Lemma webpage_results_nonpos j k s get_text :
  k ≤ 0 → bs4 = Some get_text → webpage_results j k s = (Ok [], s).
Proof.
  intros Hk Hbs4. unfold webpage_results.
  rewrite (range_nonpos _ Hk), Hbs4. reflexivity.
Qed.

Lemma snippet_results_nonpos j k s :
  k ≤ 0 → snippet_results j k s = (Ok [], s).
Proof.
  intros Hk. unfold snippet_results. by rewrite (range_nonpos _ Hk).
Qed.

(** C10. With an effective count [k ≤ 0], a query whose response holds the
    results key contributes no passage and raises nothing, in SNIPPET mode
    and, when [bs4] can be imported, in WEBPAGE mode; its search request is
    sent all the same, and [forward] carries on with the remaining
    queries. *)
Theorem forward_nonpositive_count q qs k s r d :
  effective_k (self s) k ≤ 0 →
  truthy q = true →
  requests_get (calls (env s))
    (search_request (self s) q (effective_k (self s) k)) = Responded r →
  json_body r = Some (JObj d) →
  is_Some (d !! "webPages") →
  (bing_result_choice (self s) = WEBPAGE → is_Some bs4) →
  _search q (effective_k (self s) k) s =
    (Ok [], answered (search_request (self s) q (effective_k (self s) k)) r s) ∧
  calls (env (_search q (effective_k (self s) k) s).2) =
    calls (env s) ++
    [(search_request (self s) q (effective_k (self s) k), Responded r)] ∧
  forward (Queries (q :: qs)) k s =
    forward (Queries qs) k
      (answered (search_request (self s) q (effective_k (self s) k)) r s).
Proof.
  intros Hk Hq Hget Hj Hd Hbs4.
  assert (_search q (effective_k (self s) k) s =
          (Ok [], answered (search_request (self s) q (effective_k (self s) k)) r s))
    as Hsearch.
  { rewrite (_search_responded _ _ _ _ Hget).
    rewrite (read_response_present _ _ _ (JObj d) Hj).
    2:{ simpl. by rewrite bool_decide_eq_true_2. }
    rewrite answered_self.
    destruct (bing_result_choice (self s)) eqn:Echoice.
    - by apply snippet_results_nonpos.
    - destruct Hbs4 as [get_text Hbs4]; [done|].
      by eapply webpage_results_nonpos. }
  split; [exact Hsearch|]. split; [by rewrite Hsearch|].
  by apply forward_skip.
Qed.

(** C1. What the code does when the response holds the results key but
    fewer than [k] entries, each with its snippet and display URL: the
    comprehension over [range(k)] indexes past the last entry and
    [forward] raises [IndexError], in both result modes, instead of
    returning one passage per entry. *)
Theorem forward_short_response_raises q qs k s r j entries :
  truthy q = true →
  requests_get (calls (env s))
    (search_request (self s) q (effective_k (self s) k)) = Responded r →
  json_body r = Some j →
  result_entries j = Some entries →
  Forall (fun entry => is_Some (entry_get "snippet" entry)) entries →
  Forall (fun entry => is_Some (entry_get "displayUrl" entry)) entries →
  Z.of_nat (length entries) < effective_k (self s) k →
  (forward (Queries (q :: qs)) k s).1 = Raise IndexError.
Proof.
  intros Hq Hget Hj Hentries Hsnippet Hurl Hshort.
  rewrite forward_unfold, run_bind. simpl queries_of.
  rewrite filter_cons_True by done. simpl forward_loop. rewrite run_bind.
  rewrite (_search_responded _ _ _ _ Hget).
  rewrite (read_response_present _ _ _ _ Hj (py_in_entries _ _ Hentries)).
  rewrite answered_self.
  destruct (bing_result_choice (self s)).
  - unfold snippet_results, lift. rewrite range_eq.
    rewrite (mapM_entry_field_short _ _ _ Hentries Hsnippet); [done|lia..].
  - unfold webpage_results, lift. rewrite run_bind, range_eq.
    rewrite (mapM_entry_field_short _ _ _ Hentries Hurl); [done|lia..].
Qed.

(** C5. If a call to [requests.get] made during [forward], the search of
    a query or the fetch of a result page, fails, it is the last call
    [forward] makes, and [forward] ends with that failure: it raises it and
    returns no prediction.  The failure on record is the one [requests.get]
    gave on the calls made until then. *)
Theorem forward_aborts_on_failed_call qq k s pre rq e post :
  calls (env (forward qq k s).2) =
    calls (env s) ++ pre ++ (rq, Failed e) :: post →
  post = [] ∧
  (forward qq k s).1 = Raise (RequestException e) ∧
  requests_get (calls (env s) ++ pre) rq = Failed e.
Proof.
  intros Hcalls.
  destruct (forward_stops qq k s) as (new & Hnew & Hstop).
  destruct (forward_recorded qq k s) as (new' & Hnew' & Hrecorded).
  unfold new_calls in Hnew, Hnew'. rewrite Hnew in Hcalls, Hnew'.
  apply app_inv_head in Hcalls, Hnew'. subst new'.
  destruct (Hstop _ _ _ _ Hcalls) as [-> Hraised].
  split; [done|]. split.
  - by destruct (forward qq k s).1; simplify_eq/=.
  - symmetry. apply (Hrecorded pre (rq, Failed e) []). by rewrite Hcalls.
Qed.

Lemma filter_truthy_empty qs :
  Forall (fun q => q = "") qs → filter (fun q => truthy q = true) qs = [].
Proof.
  induction 1 as [|q qs -> _ IH]; [done|].
  by rewrite filter_cons_False.
Qed.

Lemma filter_truthy_idemp (qs : list string) :
  filter (fun q => truthy q = true) (filter (fun q => truthy q = true) qs) =
  filter (fun q => truthy q = true) qs.
Proof.
  apply filter_truthy_id, Forall_forall. intros q Hq.
  apply list_elem_of_filter in Hq as [Hq _]. by destruct q.
Qed.

(** C7. Empty strings are dropped before any call: [forward] on the empty
    string, or on a sequence of empty strings, returns the empty
    prediction and leaves the world as it was (no call made); [forward] on
    any sequence equals [forward] on the sequence without its empty
    strings; and no call [forward] makes carries the empty string as its
    query text. *)
Theorem forward_drops_empty_queries k s :
  forward (Query "") k s = (Ok (MkPrediction []), s) ∧
  (∀ qs, Forall (fun q => q = "") qs →
         forward (Queries qs) k s = (Ok (MkPrediction []), s)) ∧
  (∀ qs, forward (Queries qs) k s =
         forward (Queries (filter (fun q => truthy q = true) qs)) k s) ∧
  (∀ qq, ∃ new, new_calls s (forward qq k s).2 new ∧
                Forall (fun ev => ¬ sends_empty_query ev.1) new).
Proof.
  split; [reflexivity|]. split; [|split].
  - intros qs Hqs. rewrite forward_unfold. simpl queries_of.
    by rewrite (filter_truthy_empty _ Hqs).
  - intros qs. rewrite !forward_unfold. simpl queries_of.
    by rewrite filter_truthy_idemp.
  - intros qq. apply forward_sends_truthy.
Qed.

(** ** The default count is read once, by [forward] *)












(** ** The calls and the output of one search *)

Lemma after_nil s : after [] [] s = s.
Proof. destruct s as [a [c o]]. unfold after. simpl. by rewrite !app_nil_r. Qed.

Lemma after_after new1 p1 new2 p2 s :
  after new2 p2 (after new1 p1 s) = after (new1 ++ new2) (p1 ++ p2) s.
Proof. unfold after. simpl. by rewrite !app_assoc. Qed.

Lemma get_run rq s :
  get rq s =
  (match requests_get (calls (env s)) rq with
   | Responded r => Ok r
   | Failed e => Raise (RequestException e)
   end,
   after [(rq, requests_get (calls (env s)) rq)] [] s).
Proof.
  unfold get, after, on_env, record_call. simpl. rewrite app_nil_r.
  by destruct (requests_get _ _).
Qed.

Lemma mapM_result_length {A B} (f : A → result B) l ys :
  mapM f l = Ok ys → length ys = length l.
Proof.
  revert ys. induction l as [|x l IH]; intros ys.
  - by intros [= <-].
  - rewrite mapM_result_cons. destruct (f x); simpl; [|done].
    destruct (mapM f l) as [ys'|]; simpl; [|done].
    intros [= <-]. simpl. by rewrite (IH ys').
Qed.

(** The fetches of [fetch_pages]: one request per URL, in order, up to the
    first that fails; nothing is printed. *)
Lemma fetch_pages_trace urls s :
  ∃ new,
    (fetch_pages urls s).2 = after new [] s ∧
    map fst new = map page_request (take (length new) urls) ∧
    (length new ≤ length urls)%nat ∧
    ∀ pages, (fetch_pages urls s).1 = Ok pages →
             length new = length urls ∧ length pages = length urls.
Proof.
  revert s. induction urls as [|u urls IH]; intros s.
  - exists []. simpl. rewrite after_nil.
    split; [done|]. split; [done|]. split; [done|]. by intros pages [= <-].
  - rewrite fetch_pages_cons, !run_bind, get_run.
    destruct (requests_get (calls (env s)) (page_request u)) as [r|e] eqn:Eget.
    + simpl. rewrite run_bind.
      destruct (IH (after [(page_request u, Responded r)] [] s))
        as (new & Hstate & Hreqs & Hlen & Hok).
      exists ((page_request u, Responded r) :: new).
      destruct (fetch_pages urls _) as [[pages|e] s2]; simpl in *.
      * rewrite Hstate, after_after. destruct (Hok pages eq_refl) as [Hn Hp].
        split; [done|]. split; [by rewrite Hreqs|]. split; [lia|].
        intros ps [= <-]. simpl. lia.
      * rewrite Hstate, after_after.
        split; [done|]. split; [by rewrite Hreqs|]. split; [lia|done].
    + exists [(page_request u, Failed e)]. simpl.
      split; [done|]. split; [done|]. split; [lia|done].
Qed.

Lemma page_requests_bare (new : list event) urls :
  map fst new = map page_request urls →
  Forall (fun ev => is_page_request ev.1) new.
Proof.
  revert urls. induction new as [|ev new IH]; intros urls Hmap; [done|].
  destruct urls as [|u urls]; [done|]. injection Hmap as Hev Hmap.
  constructor; [by rewrite Hev|by eapply IH].
Qed.

Lemma range_mapM_length {B} (f : Z → result B) k ys :
  mapM f (range k) = Ok ys → length ys = Z.to_nat k.
Proof.
  intros H. apply mapM_result_length in H. rewrite H. apply length_seqZ.
Qed.

(** What follows the response: page fetches only, at most [k], none in
    SNIPPET mode, nothing printed; and the results are none or [k]. *)
Lemma read_response_trace r k s :
  ∃ new,
    (read_response r k s).2 = after new [] s ∧
    Forall (fun ev => is_page_request ev.1) new ∧
    (length new ≤ Z.to_nat k)%nat ∧
    (bing_result_choice (self s) = SNIPPET → new = []) ∧
    ∀ results, (read_response r k s).1 = Ok results →
               results = [] ∨ length results = Z.to_nat k.
Proof.
  assert (∀ (out : result (list json)),
            (∀ results, out = Ok results →
                        results = [] ∨ length results = Z.to_nat k) →
            ∃ new, (out, s).2 = after new [] s ∧
                   Forall (fun ev => is_page_request ev.1) new ∧
                   (length new ≤ Z.to_nat k)%nat ∧
                   (bing_result_choice (self s) = SNIPPET → new = []) ∧
                   ∀ results, (out, s).1 = Ok results →
                              results = [] ∨ length results = Z.to_nat k)
    as Hquiet.
  { intros out Hout. exists []. simpl. rewrite after_nil.
    split; [done|]. split; [done|]. split; [lia|]. split; done. }
  unfold read_response. rewrite run_bind. unfold json_of.
  destruct (json_body r) as [j|]; [|by apply Hquiet].
  simpl. rewrite run_bind. unfold lift.
  destruct (py_in "webPages" j) as [found|e]; [|by apply Hquiet].
  destruct found; simpl; [|apply Hquiet; intros ? [= <-]; by left].
  rewrite run_bind. cbn [get_self].
  destruct (bing_result_choice (self s)) eqn:Echoice.
  - unfold snippet_results, lift. apply Hquiet. intros results Hres.
    right. by eapply range_mapM_length.
  - unfold webpage_results. rewrite run_bind. unfold lift.
    destruct (mapM (entry_field j "displayUrl") (range k)) as [urls|e] eqn:Eurls;
      [|by apply Hquiet].
    apply range_mapM_length in Eurls.
    rewrite run_bind.
    destruct (fetch_pages_trace urls s) as (new & Hstate & Hreqs & Hlen & Hok).
    exists new. destruct (fetch_pages urls s) as [[pages|e] s1]; simpl in *.
    + destruct (Hok pages eq_refl) as [_ Hpages].
      destruct bs4 as [get_text|]; simpl.
      * split; [done|]. split; [by eapply page_requests_bare|].
        split; [lia|]. split; [done|]. intros results [= <-].
        right. rewrite length_map. lia.
      * split; [done|]. split; [by eapply page_requests_bare|].
        split; [lia|]. split; done.
    + split; [done|]. split; [by eapply page_requests_bare|].
      split; [lia|]. split; done.
Qed.

(** One search: the search request, then page fetches only (at most [k],
    none in SNIPPET mode); a line is printed exactly when the search request
    fails, which is then what is raised; the results are none or [k]. *)
Lemma _search_trace q k s :
  ∃ pages,
    (_search q k s).2 =
      after ((search_request (self s) q k,
              requests_get (calls (env s)) (search_request (self s) q k)) :: pages)
            (match requests_get (calls (env s)) (search_request (self s) q k) with
             | Failed e => [error_line e]
             | Responded _ => []
             end) s ∧
    Forall (fun ev => is_page_request ev.1) pages ∧
    (length pages ≤ Z.to_nat k)%nat ∧
    (bing_result_choice (self s) = SNIPPET → pages = []) ∧
    (∀ e, requests_get (calls (env s)) (search_request (self s) q k) = Failed e →
          pages = [] ∧ (_search q k s).1 = Raise (RequestException e)) ∧
    (∀ results, (_search q k s).1 = Ok results →
                results = [] ∨ length results = Z.to_nat k).
Proof.
  rewrite _search_unfold, run_bind. unfold get_or_report. rewrite get_run.
  destruct (requests_get (calls (env s)) (search_request (self s) q k))
    as [r|e] eqn:Eget.
  - destruct (read_response_trace r k
                (after [(search_request (self s) q k, Responded r)] [] s))
      as (new & Hstate & Hpages & Hlen & Hsnippet & Hresults).
    exists new. rewrite Hstate, after_after. simpl.
    split; [done|]. split; [done|]. split; [done|]. split; [done|].
    split; [done|]. apply Hresults.
  - exists []. simpl. split.
    { unfold after, on_env, print. simpl. by rewrite app_nil_r. }
    split; [done|]. split; [lia|]. split; [done|]. split; [|done].
    by intros e' [= <-].
Qed.

(** ** The loop of [forward], query by query *)

Lemma forward_loop_cases k
    (P : list string → list dotdict → state →
         result (list dotdict) * state → Prop) :
  (∀ acc s, P [] acc s (Ok acc, s)) →
  (∀ q qs acc s e s1,
     _search q k s = (Raise e, s1) → P (q :: qs) acc s (Raise e, s1)) →
  (∀ q qs acc s res s1,
     _search q k s = (Ok res, s1) →
     P qs (acc ++ map Passage res) s1
       (forward_loop k qs (acc ++ map Passage res) s1) →
     P (q :: qs) acc s (forward_loop k qs (acc ++ map Passage res) s1)) →
  ∀ qs acc s, P qs acc s (forward_loop k qs acc s).
Proof.
  intros Hnil Hraise Hok. induction qs as [|q qs IH]; intros acc s.
  - apply Hnil.
  - simpl. rewrite run_bind.
    destruct (_search q k s) as [[res|e] s1] eqn:E.
    + by apply Hok.
    + by apply Hraise.
Qed.

Lemma forward_run qq k s :
  forward qq k s =
  match forward_loop (effective_k (self s) k)
          (filter (fun q => truthy q = true) (queries_of qq)) [] s with
  | (Ok passages, s') => (Ok (MkPrediction passages), s')
  | (Raise e, s') => (Raise e, s')
  end.
Proof.
  rewrite forward_unfold, run_bind. by destruct (forward_loop _ _ _ s) as [[?|?] ?].
Qed.

(** The state a search leaves, when it returns and when it raises. *)
Lemma _search_state q k s out s1 :
  _search q k s = (out, s1) →
  ∃ pages,
    s1 = after ((search_request (self s) q k,
                 requests_get (calls (env s)) (search_request (self s) q k)) :: pages)
               (match requests_get (calls (env s)) (search_request (self s) q k) with
                | Failed e => [error_line e]
                | Responded _ => []
                end) s ∧
    Forall (fun ev => is_page_request ev.1) pages ∧
    (length pages ≤ Z.to_nat k)%nat ∧
    (bing_result_choice (self s) = SNIPPET → pages = []) ∧
    (∀ e, requests_get (calls (env s)) (search_request (self s) q k) = Failed e →
          pages = [] ∧ out = Raise (RequestException e)) ∧
    (∀ results, out = Ok results →
                results = [] ∨ length results = Z.to_nat k).
Proof.
  intros E. destruct (_search_trace q k s) as (pages & H). rewrite E in H.
  by exists pages.
Qed.

Lemma is_search_for_cons a k q qs rq :
  is_search_for a k qs rq → is_search_for a k (q :: qs) rq.
Proof. intros (q' & Hin & ->). exists q'. split; [by right|done]. Qed.

Lemma forward_loop_requests k qs acc s :
  ∃ new printed,
    (forward_loop k qs acc s).2 = after new printed s ∧
    Forall (fun ev => is_search_for (self s) k qs ev.1 ∨ is_page_request ev.1)
           new ∧
    (length new ≤ length qs * (1 + Z.to_nat k))%nat.
Proof.
  revert qs acc s.
  apply (forward_loop_cases k
           (fun qs acc s out =>
              ∃ new printed,
                out.2 = after new printed s ∧
                Forall (fun ev => is_search_for (self s) k qs ev.1 ∨
                                  is_page_request ev.1) new ∧
                (length new ≤ length qs * (1 + Z.to_nat k))%nat)).
  - intros acc s. exists [], []. simpl. rewrite after_nil.
    split; [done|]. split; [done|]. lia.
  - intros q qs acc s e s1 E.
    destruct (_search_state _ _ _ _ _ E) as (pages & -> & Hpages & Hlen & _).
    eexists _, _. split; [reflexivity|]. split.
    + constructor.
      * left. exists q. split; [by left|done].
      * eapply Forall_impl; [exact Hpages|]. by right.
    + cbn [length]. rewrite Nat.mul_succ_l. unfold event in *.
      generalize (length qs * (1 + Z.to_nat k))%nat. lia.
  - intros q qs acc s res s1 E (new & printed & Hstate & Hreqs & Hbound).
    destruct (_search_state _ _ _ _ _ E) as (pages & -> & Hpages & Hlen & _).
    rewrite Hstate, after_after. eexists _, _. split; [reflexivity|]. split.
    + constructor; [left; exists q; split; [by left|done]|].
      apply Forall_app. split.
      * eapply Forall_impl; [exact Hpages|]. by right.
      * eapply Forall_impl; [exact Hreqs|]. simpl.
        intros ev [Hs|Hp]; [left; by apply is_search_for_cons|by right].
    + cbn [length]. rewrite length_app, Nat.mul_succ_l. cbn [length].
      unfold event in *.
      revert Hbound. generalize (length qs * (1 + Z.to_nat k))%nat. lia.
Qed.

Lemma forward_loop_output k qs acc s :
  ∃ new printed,
    (forward_loop k qs acc s).2 = after new printed s ∧
    ((printed = [] ∧
      Forall (fun ev => is_page_request ev.1 ∨ ∃ r, ev.2 = Responded r) new) ∨
     (∃ pre q e,
        new = pre ++ [(search_request (self s) q k, Failed e)] ∧
        printed = [error_line e] ∧
        (forward_loop k qs acc s).1 = Raise (RequestException e))).
Proof.
  revert qs acc s.
  apply (forward_loop_cases k
           (fun qs acc s out =>
              ∃ new printed,
                out.2 = after new printed s ∧
                ((printed = [] ∧
                  Forall (fun ev => is_page_request ev.1 ∨
                                    ∃ r, ev.2 = Responded r) new) ∨
                 (∃ pre q e,
                    new = pre ++ [(search_request (self s) q k, Failed e)] ∧
                    printed = [error_line e] ∧
                    out.1 = Raise (RequestException e))))).
  - intros acc s. exists [], []. simpl. rewrite after_nil. split; [done|].
    by left.
  - intros q qs acc s e s1 E.
    destruct (_search_state _ _ _ _ _ E)
      as (pages & -> & Hpages & _ & _ & Hfailed & _).
    eexists _, _. split; [reflexivity|].
    destruct (requests_get (calls (env s)) (search_request (self s) q k))
      as [r|e'] eqn:Eget.
    + left. split; [done|]. constructor; [right; by exists r|].
      eapply Forall_impl; [exact Hpages|]. by left.
    + right. destruct (Hfailed e' eq_refl) as [-> [= ->]].
      by exists [], q, e'.
  - intros q qs acc s res s1 E (new & printed & Hstate & IH).
    destruct (_search_state _ _ _ _ _ E)
      as (pages & -> & Hpages & _ & _ & Hfailed & _).
    destruct (requests_get (calls (env s)) (search_request (self s) q k))
      as [r|e'] eqn:Eget.
    2:{ by destruct (Hfailed e' eq_refl) as [_ ?]. }
    rewrite Hstate, after_after. eexists _, _. split; [reflexivity|].
    destruct IH as [[-> Hnew]|(pre & q' & e & -> & -> & Hraise)].
    + left. split; [done|]. constructor; [right; by exists r|].
      apply Forall_app. split; [|done].
      eapply Forall_impl; [exact Hpages|]. by left.
    + right.
      exists (((search_request (self s) q k, Responded r) :: pages) ++ pre), q', e.
      split; [by rewrite <- app_assoc|]. done.
Qed.

Lemma forward_loop_count k qs acc s passages :
  (forward_loop k qs acc s).1 = Ok passages →
  ∃ n, (n ≤ length qs)%nat ∧
       length passages = (length acc + n * Z.to_nat k)%nat.
Proof.
  revert passages. revert qs acc s.
  apply (forward_loop_cases k
           (fun qs acc s out =>
              ∀ passages, out.1 = Ok passages →
                ∃ n, (n ≤ length qs)%nat ∧
                     length passages = (length acc + n * Z.to_nat k)%nat)).
  - intros acc s passages [= <-]. exists 0%nat. simpl. lia.
  - intros q qs acc s e s1 _ passages H. discriminate H.
  - intros q qs acc s res s1 E IH passages Hp.
    destruct (_search_state _ _ _ _ _ E) as (_ & _ & _ & _ & _ & _ & Hres).
    destruct (IH passages Hp) as (n & Hn & Hlen).
    rewrite length_app, length_map in Hlen.
    destruct (Hres res eq_refl) as [->|Hk].
    + exists n. simpl in *. split; lia.
    + exists (S n). simpl. split; lia.
Qed.

Lemma forward_state qq k s :
  (forward qq k s).2 =
  (forward_loop (effective_k (self s) k)
     (filter (fun q => truthy q = true) (queries_of qq)) [] s).2.
Proof. rewrite forward_run. by destruct (forward_loop _ _ _ s) as [[?|?] ?]. Qed.

Lemma forward_ok qq k s prediction :
  (forward qq k s).1 = Ok prediction →
  (forward_loop (effective_k (self s) k)
     (filter (fun q => truthy q = true) (queries_of qq)) [] s).1 =
  Ok (passages prediction).
Proof.
  rewrite forward_run. destruct (forward_loop _ _ _ s) as [[ps|?] ?]; [|done].
  by intros [= <-].
Qed.

Lemma forward_raise qq k s e :
  (forward_loop (effective_k (self s) k)
     (filter (fun q => truthy q = true) (queries_of qq)) [] s).1 = Raise e →
  (forward qq k s).1 = Raise e.
Proof.
  rewrite forward_run. destruct (forward_loop _ _ _ s) as [[ps|?] ?]; [done|].
  by intros [= <-].
Qed.

(** ** Further properties of [forward] *)

(** X1. Every request [forward] makes is either the search request of one
    of the non-empty queries it was given, sent to the adapter's endpoint
    with the subscription key as header and the effective count and the
    market as parameters, or a request without headers and parameters (the
    fetch of a result page): the subscription key goes to the endpoint
    only. *)
Theorem forward_requests_shape qq k s :
  ∃ new printed,
    (forward qq k s).2 = after new printed s ∧
    Forall (fun ev =>
              (∃ q, q ∈ queries_of qq ∧ q ≠ "" ∧
                    ev.1 = search_request (self s) q (effective_k (self s) k)) ∨
              is_page_request ev.1) new.
Proof.
  destruct (forward_loop_requests (effective_k (self s) k)
              (filter (fun q => truthy q = true) (queries_of qq)) [] s)
    as (new & printed & Hstate & Hreqs & _).
  exists new, printed. rewrite forward_state. split; [done|].
  eapply Forall_impl; [exact Hreqs|]. simpl.
  intros ev [(q & Hq & Hev)|Hpage]; [left|by right].
  apply list_elem_of_filter in Hq as [Htruthy Hq].
  exists q. split; [done|]. split; [|done]. by intros ->.
Qed.

(** X2. [forward] makes at most [1 + max(k, 0)] requests per non-empty
    query: one search and at most [k] page fetches. *)
Theorem forward_call_bound qq k s :
  ∃ new printed,
    (forward qq k s).2 = after new printed s ∧
    (length new ≤
     length (filter (fun q => truthy q = true) (queries_of qq)) *
     (1 + Z.to_nat (effective_k (self s) k)))%nat.
Proof.
  destruct (forward_loop_requests (effective_k (self s) k)
              (filter (fun q => truthy q = true) (queries_of qq)) [] s)
    as (new & printed & Hstate & _ & Hbound).
  exists new, printed. by rewrite forward_state.
Qed.

Lemma filter_truthy_all qs :
  Forall (fun q => truthy q = true) qs →
  filter (fun q => truthy q = true) qs = qs.
Proof.
  induction 1 as [|q qs Hq _ IH]; [done|].
  by rewrite filter_cons_True, IH.
Qed.

Lemma filter_truthy_Forall (qs : list string) :
  Forall (fun q => truthy q = true) (filter (fun q => truthy q = true) qs).
Proof.
  apply Forall_forall. intros q Hq. by apply list_elem_of_filter in Hq as [? _].
Qed.

(** The loop in SNIPPET mode stops at the first query whose search raises:
    the queries before it were gone through without a raise, and the
    requests are the searches of those queries and of that one. *)
Lemma forward_loop_snippet_stop k qs acc s :
  bing_result_choice (self s) = SNIPPET →
  ∃ new printed,
    (forward_loop k qs acc s).2 = after new printed s ∧
    match (forward_loop k qs acc s).1 with
    | Ok _ => map fst new = map (fun q => search_request (self s) q k) qs
    | Raise e =>
        ∃ before q rest passages s1,
          qs = before ++ q :: rest ∧
          map fst new =
            map (fun q => search_request (self s) q k) (before ++ [q]) ∧
          forward_loop k before acc s = (Ok passages, s1) ∧
          _search q k s1 = (Raise e, (forward_loop k qs acc s).2)
    end.
Proof.
  revert qs acc s.
  apply (forward_loop_cases k
           (fun qs acc s out =>
              bing_result_choice (self s) = SNIPPET →
              ∃ new printed,
                out.2 = after new printed s ∧
                match out.1 with
                | Ok _ =>
                    map fst new = map (fun q => search_request (self s) q k) qs
                | Raise e =>
                    ∃ before q rest passages s1,
                      qs = before ++ q :: rest ∧
                      map fst new =
                        map (fun q => search_request (self s) q k)
                            (before ++ [q]) ∧
                      forward_loop k before acc s = (Ok passages, s1) ∧
                      _search q k s1 = (Raise e, out.2)
                end)).
  - intros acc s _. exists [], []. simpl. by rewrite after_nil.
  - intros q qs acc s e s1 E Hchoice.
    destruct (_search_state _ _ _ _ _ E) as (pages & Hs1 & _ & _ & Hnone & _).
    rewrite (Hnone Hchoice) in Hs1.
    eexists _, _. split; [exact Hs1|]. simpl.
    exists [], q, qs, acc, s. by rewrite E.
  - intros q qs acc s res s1 E IH Hchoice.
    destruct (_search_state _ _ _ _ _ E) as (pages & -> & _ & _ & Hnone & _).
    rewrite (Hnone Hchoice) in *.
    destruct IH as (new & printed & Hstate & Hout); [done|].
    eexists _, _. split; [by rewrite Hstate, after_after|].
    destruct (forward_loop k qs (acc ++ map Passage res) _) as [[ps|e] s2];
      simpl in *.
    + by rewrite Hout.
    + destruct Hout as (before & q' & rest & ps & s1' & -> & Hreqs & Hloop & Hq').
      exists (q :: before), q', rest, ps, s1'. simpl.
      split; [done|]. split; [by rewrite Hreqs|]. split; [|done].
      by rewrite run_bind, E.
Qed.

(** X3. In SNIPPET mode [forward] fetches no page: its requests are the
    search requests of the non-empty queries, in order, up to the first
    query whose search raises.  When [forward] returns, there is one per
    query.  When it raises, the queries are some [before], then [q], then
    the rest: [forward] on [before] returns, the search of [q] from the
    state it leaves raises what [forward] raises and leaves the state
    [forward] leaves, and the requests are the searches of [before] and
    of [q]. *)
Theorem forward_snippet_mode_calls qq k s :
  bing_result_choice (self s) = SNIPPET →
  ∃ new printed,
    (forward qq k s).2 = after new printed s ∧
    map fst new =
      map (fun q => search_request (self s) q (effective_k (self s) k))
          (take (length new)
                (filter (fun q => truthy q = true) (queries_of qq))) ∧
    (∀ prediction, (forward qq k s).1 = Ok prediction →
                   length new =
                   length (filter (fun q => truthy q = true) (queries_of qq))) ∧
    (∀ e, (forward qq k s).1 = Raise e →
          ∃ before q rest prediction s1,
            filter (fun q => truthy q = true) (queries_of qq) =
              before ++ q :: rest ∧
            map fst new =
              map (fun q => search_request (self s) q (effective_k (self s) k))
                  (before ++ [q]) ∧
            forward (Queries before) k s = (Ok prediction, s1) ∧
            _search q (effective_k (self s) k) s1 =
              (Raise e, (forward qq k s).2)).
Proof.
  intros Hchoice.
  destruct (forward_loop_snippet_stop (effective_k (self s) k)
              (filter (fun q => truthy q = true) (queries_of qq)) [] s Hchoice)
    as (new & printed & Hstate & Hout).
  pose proof (filter_truthy_Forall (queries_of qq)) as Htruthy.
  exists new, printed. rewrite forward_state. split; [done|].
  rewrite forward_run.
  destruct (forward_loop _ _ [] s) as [[ps|e] s2]; simpl in *.
  - pose proof (f_equal length Hout) as Hlen. rewrite !length_map in Hlen.
    unfold event in *.
    split; [by rewrite Hlen, firstn_all|]. split; [done|]. by intros e [=].
  - destruct Hout as (before & q & rest & passages & s1 & Hqs & Hreqs & Hloop & Hq).
    pose proof (f_equal length Hreqs) as Hlen. rewrite !length_map in Hlen.
    unfold event in *.
    split.
    { rewrite Hqs, Hlen, (cons_middle q before rest), app_assoc.
      by rewrite take_app_length. }
    split; [by intros prediction [=]|].
    intros e' [= <-]. exists before, q, rest, (MkPrediction passages), s1.
    split; [done|]. split; [done|]. split; [|done].
    rewrite forward_run. simpl queries_of.
    rewrite filter_truthy_all, Hloop; [done|].
    rewrite Hqs in Htruthy. by apply Forall_app in Htruthy as [? _].
Qed.

(** X4. [forward] prints at most one line.  It prints exactly when a search
    request fails: that request is then the last one made, the line carries
    its failure, and the failure is raised.  Otherwise nothing is printed,
    and a request that failed, if any, was the fetch of a page. *)
Theorem forward_prints_failed_search qq k s :
  ∃ new printed,
    (forward qq k s).2 = after new printed s ∧
    ((printed = [] ∧
      Forall (fun ev => is_page_request ev.1 ∨ ∃ r, ev.2 = Responded r) new) ∨
     (∃ pre q e,
        new = pre ++ [(search_request (self s) q (effective_k (self s) k),
                       Failed e)] ∧
        printed = [error_line e] ∧
        (forward qq k s).1 = Raise (RequestException e))).
Proof.
  destruct (forward_loop_output (effective_k (self s) k)
              (filter (fun q => truthy q = true) (queries_of qq)) [] s)
    as (new & printed & Hstate & Hcases).
  exists new, printed. rewrite forward_state. split; [done|].
  destruct Hcases as [?|(pre & q & e & ? & ? & Hraise)]; [by left|right].
  exists pre, q, e. split; [done|]. split; [done|]. by apply forward_raise.
Qed.

Lemma read_response_run r k s :
  read_response r k s =
  match json_body r with
  | None => (Raise JSONDecodeError, s)
  | Some j =>
      match py_in "webPages" j with
      | Raise e => (Raise e, s)
      | Ok false => (Ok [], s)
      | Ok true =>
          match bing_result_choice (self s) with
          | WEBPAGE => webpage_results j k s
          | SNIPPET => snippet_results j k s
          end
      end
  end.
Proof.
  unfold read_response, json_of. destruct (json_body r) as [j|]; [|done].
  rewrite run_bind. simpl. rewrite run_bind. unfold lift.
  destruct (py_in "webPages" j) as [[|]|e]; simpl; try done.
  rewrite run_bind. cbn [get_self].
  by destruct (bing_result_choice (self s)).
Qed.

Lemma webpage_results_length j k s results s1 :
  webpage_results j k s = (Ok results, s1) → length results = Z.to_nat k.
Proof.
  unfold webpage_results. rewrite run_bind. unfold lift.
  destruct (mapM (entry_field j "displayUrl") (range k)) as [urls|e] eqn:Eurls;
    [|done].
  apply range_mapM_length in Eurls. rewrite run_bind.
  destruct (fetch_pages_trace urls s) as (new & _ & _ & _ & Hok).
  destruct (fetch_pages urls s) as [[pages|e] s2]; [|done].
  destruct (Hok pages eq_refl) as [_ Hpages].
  destruct bs4 as [get_text|]; [|done].
  intros [= <- _]. rewrite length_map. simpl in *. lia.
Qed.

(** A search that returns gives [k] results when its response held the
    results key, and none when it did not. *)
Lemma _search_results_length q k s results s1 :
  _search q k s = (Ok results, s1) →
  length results =
  if results_key_found
       (requests_get (calls (env s)) (search_request (self s) q k))
  then Z.to_nat k else 0%nat.
Proof.
  rewrite _search_unfold, run_bind. unfold get_or_report. rewrite get_run.
  destruct (requests_get (calls (env s)) (search_request (self s) q k))
    as [r|e]; [|done].
  cbn [results_key_found]. rewrite read_response_run. unfold key_found_in.
  destruct (json_body r) as [j|]; [|done].
  destruct (py_in "webPages" j) as [[|]|e]; try done.
  - destruct (bing_result_choice (self _)).
    + unfold snippet_results, lift. intros [= E _].
      by eapply range_mapM_length.
    + apply webpage_results_length.
  - by intros [= <- _].
Qed.

Lemma forward_loop_searches k qs acc s passages :
  (forward_loop k qs acc s).1 = Ok passages →
  ∃ results,
    searches_return k s qs results (forward_loop k qs acc s).2 ∧
    passages = acc ++ map Passage (concat (map snd results)) ∧
    Forall (fun found_results : bool * list json =>
              length found_results.2 =
              if found_results.1 then Z.to_nat k else 0%nat) results.
Proof.
  revert passages. revert qs acc s.
  apply (forward_loop_cases k
           (fun qs acc s out =>
              ∀ passages, out.1 = Ok passages →
                ∃ results,
                  searches_return k s qs results out.2 ∧
                  passages = acc ++ map Passage (concat (map snd results)) ∧
                  Forall (fun found_results : bool * list json =>
                            length found_results.2 =
                            if found_results.1 then Z.to_nat k else 0%nat)
                         results)).
  - intros acc s passages [= <-]. exists []. simpl.
    split; [constructor|]. split; [by rewrite app_nil_r|done].
  - intros q qs acc s e s1 _ passages H. discriminate H.
  - intros q qs acc s res s1 E IH passages Hp.
    destruct (IH passages Hp) as (results & Hrun & -> & Hall).
    eexists (_ :: results). split; [by econstructor|]. split.
    + simpl. by rewrite map_app, app_assoc.
    + constructor; [|done]. simpl. by eapply _search_results_length.
Qed.

(** X5. A prediction holds, for each non-empty query in order, the results
    of its search: [k] passages when the response held the results key,
    none when it did not, never a part of them.  Its length is therefore
    [n * max(k, 0)] for some [n] up to the number of non-empty queries. *)
Theorem forward_passage_count qq k s prediction :
  (forward qq k s).1 = Ok prediction →
  (∃ n, (n ≤ length (filter (fun q => truthy q = true) (queries_of qq)))%nat ∧
        length (passages prediction) =
        (n * Z.to_nat (effective_k (self s) k))%nat) ∧
  ∃ results,
    searches_return (effective_k (self s) k) s
      (filter (fun q => truthy q = true) (queries_of qq)) results
      (forward qq k s).2 ∧
    passages prediction = map Passage (concat (map snd results)) ∧
    Forall (fun found_results : bool * list json =>
              length found_results.2 =
              if found_results.1 then Z.to_nat (effective_k (self s) k)
              else 0%nat) results.
Proof.
  intros Hp. apply forward_ok in Hp. split.
  - destruct (forward_loop_count _ _ _ _ _ Hp) as (n & Hn & Hlen).
    exists n. by split.
  - rewrite forward_state. by apply forward_loop_searches in Hp.
Qed.

Lemma forward_loop_acc k qs acc s :
  forward_loop k qs acc s =
  match forward_loop k qs [] s with
  | (Ok passages, s') => (Ok (acc ++ passages), s')
  | (Raise e, s') => (Raise e, s')
  end.
Proof.
  revert acc s. induction qs as [|q qs IH]; intros acc s.
  - simpl. by rewrite app_nil_r.
  - simpl. rewrite !run_bind. destruct (_search q k s) as [[res|e] s1]; [|done].
    rewrite (IH (acc ++ map Passage res)), (IH ([] ++ map Passage res)).
    destruct (forward_loop k qs [] s1) as [[ps|e] s2]; [|done].
    simpl. by rewrite app_assoc.
Qed.

Lemma forward_loop_app k qs1 qs2 acc s :
  forward_loop k (qs1 ++ qs2) acc s =
  match forward_loop k qs1 acc s with
  | (Ok passages, s1) => forward_loop k qs2 passages s1
  | (Raise e, s1) => (Raise e, s1)
  end.
Proof.
  revert acc s. induction qs1 as [|q qs1 IH]; intros acc s; [done|].
  simpl. rewrite !run_bind. destruct (_search q k s) as [[res|e] s1]; [|done].
  apply IH.
Qed.

(** X6. [forward] on a sequence of queries is [forward] on a first part of
    it followed by [forward] on the rest: the second call starts from the
    state the first leaves, the passages are those of the first followed by
    those of the second, and a failure of the first is the failure of the
    whole. *)
Theorem forward_app qs1 qs2 k s :
  forward (Queries (qs1 ++ qs2)) k s =
  match forward (Queries qs1) k s with
  | (Ok first, s1) =>
      match forward (Queries qs2) k s1 with
      | (Ok second, s2) =>
          (Ok (MkPrediction (passages first ++ passages second)), s2)
      | (Raise e, s2) => (Raise e, s2)
      end
  | (Raise e, s1) => (Raise e, s1)
  end.
Proof.
  pose proof (forward_self (Queries qs1) k s) as Hself.
  rewrite (forward_run (Queries (qs1 ++ qs2))). simpl queries_of.
  rewrite filter_app, forward_loop_app.
  rewrite (forward_run (Queries qs1)) in *. simpl queries_of in *.
  destruct (forward_loop _ (filter _ qs1) [] s) as [[ps1|e] s1]; [|done].
  simpl in Hself. rewrite (forward_run (Queries qs2)), Hself. simpl queries_of.
  rewrite forward_loop_acc.
  by destruct (forward_loop _ (filter _ qs2) [] s1) as [[ps2|e] s2].
Qed.

(** ** Further properties of [_search] *)

Lemma fetch_pages_answered h urls texts h' :
  pages_answered h urls texts h' →
  ∀ s, calls (env s) = h →
       fetch_pages urls s =
       (Ok texts, State (self s) (World h' (stdout (env s)))).
Proof.
  induction 1 as [h|h u urls r texts h' Hget _ IH]; intros s Hs.
  - destruct s as [a [c o]]. simpl in *. by subst.
  - rewrite fetch_pages_cons, !run_bind, get_run, Hs, Hget. simpl.
    rewrite run_bind, (IH (after [(page_request u, Responded r)] [] s)).
    + simpl. by rewrite app_nil_r.
    + simpl. by rewrite Hs.
Qed.

Lemma pages_answered_length h urls texts h' :
  pages_answered h urls texts h' → length texts = length urls.
Proof. induction 1; simpl; congruence. Qed.

(** X7. WEBPAGE mode with [bs4] at hand, a response with at least [k]
    entries, each of the first [k] with a display URL, and every page
    answered: the search returns the extracted text of the pages at those
    URLs, [k] of them, in the order of the response, after having fetched
    them in that order. *)
Theorem _search_webpage_mode q k s r j entries urls texts h' get_text :
  bing_result_choice (self s) = WEBPAGE →
  bs4 = Some get_text →
  requests_get (calls (env s)) (search_request (self s) q k) = Responded r →
  json_body r = Some j →
  result_entries j = Some entries →
  k ≤ Z.of_nat (length entries) →
  mapM (entry_get "displayUrl") (take (Z.to_nat k) entries) = Some urls →
  pages_answered
    (calls (env s) ++ [(search_request (self s) q k, Responded r)])
    urls texts h' →
  _search q k s =
    (Ok (map (fun page => JStr (get_text page)) texts),
     State (self s) (World h' (stdout (env s)))) ∧
  length texts = Z.to_nat k.
Proof.
  intros Hchoice Hbs4 Hget Hj Hentries Hk Hurls Hpages. split.
  - rewrite (_search_responded _ _ _ _ Hget).
    rewrite (read_response_present _ _ _ _ Hj (py_in_entries _ _ Hentries)).
    rewrite answered_self, Hchoice. unfold webpage_results.
    rewrite run_bind. unfold lift. rewrite range_eq.
    rewrite (mapM_entry_field_ok _ _ _ Hentries (Z.to_nat k) 0%nat urls)
      by (done || lia).
    rewrite run_bind, (fetch_pages_answered _ _ _ _ Hpages) by done.
    by rewrite Hbs4.
  - rewrite (pages_answered_length _ _ _ _ Hpages).
    apply length_mapM in Hurls. rewrite <- Hurls, length_take. lia.
Qed.

Lemma mapM_entry_field_missing j entries field i d :
  result_entries j = Some entries →
  entries !! i = Some (JObj d) →
  d !! field = None →
  Forall (fun entry => is_Some (entry_get field entry)) (take i entries) →
  ∀ n m, (m ≤ i)%nat → (i < m + n)%nat →
         mapM (entry_field j field) (seqZ (Z.of_nat m) (Z.of_nat n)) =
         Raise KeyError.
Proof.
  intros Hj Hi Hd Hbefore.
  induction n as [|n IH]; intros m Hm Hlen; [lia|].
  rewrite seqZ_S, mapM_result_cons, (entry_field_entries _ _ _ _ Hj).
  destruct (decide (m = i)) as [->|Hne].
  - rewrite (seq_index_lookup _ _ _ Hi). simpl. by rewrite Hd.
  - destruct (lookup_lt_is_Some_2 entries m) as [x Hx].
    { apply lookup_lt_Some in Hi. lia. }
    rewrite (seq_index_lookup _ _ _ Hx). simpl.
    rewrite Forall_forall in Hbefore.
    destruct (Hbefore x) as [v Hv].
    { apply list_elem_of_lookup. exists m. rewrite lookup_take_lt by lia. done. }
    rewrite (getitem_entry_get _ _ _ Hv). simpl.
    rewrite (IH (S m)) by lia. reflexivity.
Qed.

(** X8. If one of the first [k] entries of the response is an object
    without the field the mode reads (the snippet in SNIPPET mode, the
    display URL in WEBPAGE mode) while those before it have it, the search
    raises [KeyError] right after the search request: in WEBPAGE mode no
    page is fetched, not even those of the entries before. *)
Theorem _search_missing_field q k s r j entries i d :
  requests_get (calls (env s)) (search_request (self s) q k) = Responded r →
  json_body r = Some j →
  result_entries j = Some entries →
  Z.of_nat i < k →
  entries !! i = Some (JObj d) →
  d !! field_read (bing_result_choice (self s)) = None →
  Forall (fun entry =>
            is_Some (entry_get (field_read (bing_result_choice (self s))) entry))
         (take i entries) →
  _search q k s =
    (Raise KeyError, answered (search_request (self s) q k) r s).
Proof.
  intros Hget Hj Hentries Hi Hentry Hd Hbefore.
  rewrite (_search_responded _ _ _ _ Hget).
  rewrite (read_response_present _ _ _ _ Hj (py_in_entries _ _ Hentries)).
  rewrite answered_self.
  destruct (bing_result_choice (self s)); simpl in Hd, Hbefore.
  - unfold snippet_results, lift. rewrite range_eq.
    rewrite (mapM_entry_field_missing _ _ _ _ _ Hentries Hentry Hd Hbefore);
      [done|lia..].
  - unfold webpage_results, lift. rewrite run_bind, range_eq.
    rewrite (mapM_entry_field_missing _ _ _ _ _ Hentries Hentry Hd Hbefore);
      [done|lia..].
Qed.

(** X9. A response whose body does not parse makes the search raise
    [JSONDecodeError]; a body that parses to [None], a [bool] or a number
    makes it raise [TypeError], at the test for the results key.  Either way
    only the search request has been made. *)
Theorem _search_malformed_body q k s r :
  requests_get (calls (env s)) (search_request (self s) q k) = Responded r →
  (json_body r = None →
   _search q k s =
     (Raise JSONDecodeError, answered (search_request (self s) q k) r s)) ∧
  (∀ j, json_body r = Some j → scalar j →
        _search q k s =
          (Raise TypeError, answered (search_request (self s) q k) r s)).
Proof.
  intros Hget. rewrite (_search_responded _ _ _ _ Hget).
  unfold read_response, json_of. split.
  - intros ->. reflexivity.
  - intros j -> Hscalar. rewrite run_bind. simpl. rewrite run_bind.
    by destruct j.
Qed.

Lemma read_response_without_bs4 r k s results :
  bing_result_choice (self s) = WEBPAGE →
  bs4 = None →
  (read_response r k s).1 = Ok results → results = [].
Proof.
  intros Hchoice Hbs4. unfold read_response, json_of. rewrite run_bind.
  destruct (json_body r) as [j|]; [|done]. simpl. rewrite run_bind.
  unfold lift. destruct (py_in "webPages" j) as [found|]; [|done].
  destruct found; simpl; [|by intros [= <-]].
  rewrite run_bind. cbn [get_self]. rewrite Hchoice.
  unfold webpage_results, lift. rewrite run_bind.
  destruct (mapM _ (range k)) as [urls|]; [|done]. rewrite run_bind.
  destruct (fetch_pages urls s) as [[pages|] s1]; [|done].
  by rewrite Hbs4.
Qed.

Lemma forward_loop_without_bs4 k qs acc s passages :
  bing_result_choice (self s) = WEBPAGE →
  bs4 = None →
  (forward_loop k qs acc s).1 = Ok passages → passages = acc.
Proof.
  intros Hchoice Hbs4. revert passages Hchoice. revert qs acc s.
  apply (forward_loop_cases k
           (fun qs acc s out =>
              ∀ passages, bing_result_choice (self s) = WEBPAGE →
                          out.1 = Ok passages → passages = acc)).
  - by intros acc s passages _ [= <-].
  - intros q qs acc s e s1 _ passages _ H. discriminate H.
  - intros q qs acc s res s1 E IH passages Hchoice Hp.
    destruct (_search_state _ _ _ _ _ E) as (pages & Hs1 & _).
    assert (res = []) as ->.
    { rewrite _search_unfold, run_bind in E. unfold get_or_report in E.
      rewrite get_run in E.
      destruct (requests_get _ _) as [r|e]; [|done]. simpl in E.
      eapply (read_response_without_bs4 r k); [|done|by rewrite E].
      done. }
    rewrite (IH passages); [by rewrite app_nil_r| |done].
    by rewrite Hs1.
Qed.

(** X10. WEBPAGE mode without [bs4]: whatever the provider answers, a
    prediction [forward] returns holds no passage. *)
Theorem forward_webpage_without_bs4 qq k s prediction :
  bing_result_choice (self s) = WEBPAGE →
  bs4 = None →
  (forward qq k s).1 = Ok prediction →
  prediction = MkPrediction [].
Proof.
  intros Hchoice Hbs4 Hp. apply forward_ok in Hp.
  apply forward_loop_without_bs4 in Hp; [|done..].
  destruct prediction as [ps]. simpl in Hp. by rewrite Hp.
Qed.

End Runtime.

(** ** Properties across the runtime and the constructor *)

Lemma read_response_snippet_any_bs4 requests_get bs4 bs4' r k s :
  bing_result_choice (self s) = SNIPPET →
  read_response requests_get bs4 r k s = read_response requests_get bs4' r k s.
Proof.
  intros Hchoice. unfold read_response. rewrite !run_bind.
  destruct (json_of r s) as [[j|] s1] eqn:Ej; [|done].
  assert (s1 = s) as ->.
  { unfold json_of in Ej. destruct (json_body r); by injection Ej. }
  rewrite !run_bind. destruct (lift _ s) as [[found|] s1] eqn:El; [|done].
  assert (s1 = s) as -> by (by injection El).
  destruct found; simpl; [|done].
  rewrite !run_bind. cbn [get_self]. by rewrite Hchoice.
Qed.

Lemma forward_loop_snippet_any_bs4 requests_get bs4 bs4' k qs acc s :
  bing_result_choice (self s) = SNIPPET →
  forward_loop requests_get bs4 k qs acc s =
  forward_loop requests_get bs4' k qs acc s.
Proof.
  revert acc s. induction qs as [|q qs IH]; intros acc s Hchoice; [done|].
  simpl. rewrite !run_bind.
  assert (_search requests_get bs4 q k s = _search requests_get bs4' q k s) as E.
  { rewrite !_search_unfold, !run_bind.
    pose proof (get_self_eq requests_get (search_request (self s) q k) s) as Hs.
    unfold get_or_report.
    destruct (get requests_get _ s) as [[r|e] s1]; [|by destruct e]. simpl in Hs.
    apply read_response_snippet_any_bs4. by rewrite Hs. }
  rewrite <- E.
  destruct (_search_state requests_get bs4 q k s
              (_search requests_get bs4 q k s).1 (_search requests_get bs4 q k s).2)
    as (pages & Hs1 & _); [by destruct (_search _ _ _ _ _)|].
  destruct (_search requests_get bs4 q k s) as [[res|e] s1]; [|done].
  apply IH. simpl in Hs1. by rewrite Hs1.
Qed.

(** X11. In SNIPPET mode [forward] does not depend on [bs4]: with or
    without it, with one extractor or another, the result and the final
    state are the same. *)
Theorem forward_snippet_any_bs4 requests_get bs4 bs4' qq k s :
  bing_result_choice (self s) = SNIPPET →
  forward requests_get bs4 qq k s = forward requests_get bs4' qq k s.
Proof.
  intros Hchoice. rewrite !forward_run.
  by rewrite (forward_loop_snippet_any_bs4 requests_get bs4 bs4').
Qed.

(** X12. An adapter constructed from a key, an endpoint and a market sends
    its searches to that endpoint, with ["/v7.0/search"] appended when the
    endpoint does not contain it, with that key as the only header, and with
    the query, the effective count and that market as parameters; every
    other request it makes has no header and no parameter. *)
Theorem constructed_adapter_requests requests_get bs4
    key endpoint choice market k w qq count w' :
  ∃ obj,
    __init__ key endpoint choice market k w = (Ok obj, w) ∧
    ∃ new printed,
      (forward requests_get bs4 qq count (State obj w')).2 =
        after new printed (State obj w') ∧
      Forall (fun ev =>
                is_page_request ev.1 ∨
                ∃ q, q ∈ queries_of qq ∧ q ≠ "" ∧
                     ev.1 =
                     Request
                       (JStr (if contains search_path endpoint then endpoint
                              else (endpoint ++ search_path)%string))
                       [("Ocp-Apim-Subscription-Key", key)]
                       [("q", JStr q); ("count", JInt (default k count));
                        ("mkt", JStr market)]) new.
Proof.
  eexists. split; [reflexivity|].
  match goal with |- context [State ?o w'] => set (obj := o) end.
  destruct (forward_loop_requests requests_get bs4
              (effective_k obj count)
              (filter (fun q => truthy q = true) (queries_of qq)) []
              (State obj w'))
    as (new & printed & Hstate & Hreqs & _).
  exists new, printed. rewrite forward_state. split; [done|].
  eapply Forall_impl; [exact Hreqs|]. simpl.
  intros ev [(q & Hq & Hev)|Hpage]; [right|by left].
  apply list_elem_of_filter in Hq as [Htruthy Hq].
  exists q. split; [done|]. split; [by intros ->|].
  rewrite Hev. unfold search_request, obj. simpl.
  destruct (contains search_path endpoint); by destruct count.
Qed.

(** ** Substrings *)

Lemma append_cons c (a b : string) :
  (String c a ++ b)%string = String c (a ++ b)%string.
Proof. reflexivity. Qed.

Lemma prefix_spec n s :
  String.prefix n s = true ↔ ∃ b, s = (n ++ b)%string.
Proof.
  revert s. induction n as [|c n IH]; intros s.
  - split; [intros _; exists s; reflexivity|intros _; by destruct s].
  - destruct s as [|c' s]; simpl.
    { split; [done|]. by intros [b Hb]. }
    destruct (ascii_dec c c') as [<-|Hne].
    + rewrite IH. split; intros [b Hb]; exists b.
      * by rewrite append_cons, <- Hb.
      * rewrite append_cons in Hb. by injection Hb.
    + split; [done|]. intros [b Hb]. rewrite append_cons in Hb.
      by injection Hb as <- _.
Qed.

Lemma contains_nil n : contains n "" = String.prefix n "".
Proof. unfold contains. apply orb_false_r. Qed.

Lemma contains_cons n c s :
  contains n (String c s) = String.prefix n (String c s) || contains n s.
Proof. reflexivity. Qed.

(** [contains] is the substring test. *)
Lemma contains_spec n s : contains n s = true ↔ substring_of n s.
Proof.
  unfold substring_of. induction s as [|c s IH].
  - rewrite contains_nil, prefix_spec. split.
    + intros [b Hb]. by exists "", b.
    + intros (a & b & Hab). exists b. by destruct a.
  - rewrite contains_cons, orb_true_iff, prefix_spec, IH. split.
    + intros [[b Hb]|(a & b & Hab)].
      * by exists "", b.
      * exists (String c a), b. by rewrite append_cons, <- Hab.
    + intros (a & b & Hab). destruct a as [|c' a].
      * left. by exists b.
      * right. exists a, b. rewrite append_cons in Hab. by injection Hab.
Qed.

Lemma substring_of_suffix (a n : string) : substring_of n (a ++ n)%string.
Proof.
  exists a, "". f_equal. induction n as [|c n IH]; [done|].
  by rewrite append_cons, <- IH.
Qed.

Lemma contains_false n s : contains n s = false ↔ ¬ substring_of n s.
Proof. rewrite <- contains_spec. by destruct (contains n s). Qed.

Lemma length_append (a b : string) :
  String.length (a ++ b) = (String.length a + String.length b)%nat.
Proof. induction a as [|c a IH]; [done|]. rewrite append_cons. simpl. by rewrite IH. Qed.

Lemma substring_all s : substring 0 (String.length s) s = s.
Proof. induction s as [|c s IH]; [done|]. simpl. by rewrite IH. Qed.

Lemma substring_append (a s : string) :
  substring (String.length a) (String.length s) (a ++ s) = s.
Proof.
  induction a as [|c a IH]; [apply substring_all|].
  by rewrite append_cons.
Qed.

(** A string that ends with [s] has [s] as its last characters. *)
Lemma ends_with_substring t s :
  ends_with t s →
  substring (String.length t - String.length s) (String.length s) t = s.
Proof.
  intros [a ->]. rewrite length_append.
  replace (String.length a + String.length s - String.length s)%nat
    with (String.length a) by lia.
  apply substring_append.
Qed.

(** ** The claims on construction *)

(** C3. Construction stores an endpoint in which the search path
    ["/v7.0/search"] occurs.  A supplied endpoint in which it occurs nowhere
    gets it appended, once, and then ends with it; a supplied endpoint in
    which it occurs, at the end or elsewhere, is stored as supplied.
    Constructing again from the stored endpoint appends nothing. *)
Theorem init_normalises_endpoint key endpoint choice market k w :
  ∃ obj,
    __init__ key endpoint choice market k w = (Ok obj, w) ∧
    substring_of search_path (bing_search_v7_endpoint obj) ∧
    (¬ substring_of search_path endpoint →
     bing_search_v7_endpoint obj = (endpoint ++ search_path)%string ∧
     ends_with (bing_search_v7_endpoint obj) search_path) ∧
    (substring_of search_path endpoint →
     bing_search_v7_endpoint obj = endpoint) ∧
    __init__ key (bing_search_v7_endpoint obj) choice market k w = (Ok obj, w).
Proof.
  unfold __init__, Retrieve__init__. cbn [bing_search_v7_endpoint].
  destruct (contains search_path endpoint) eqn:E; cbn [negb];
    eexists; (split; [reflexivity|]); cbn [bing_search_v7_endpoint].
  - apply contains_spec in E. repeat split; try done.
    apply contains_spec in E. by rewrite E.
  - apply contains_false in E. split; [apply substring_of_suffix|].
    split; [intros _; split; [done|by exists endpoint]|]. split; [done|].
    pose proof (substring_of_suffix endpoint search_path) as H.
    apply contains_spec in H. by rewrite H.
Qed.

(** C4. Construction fails exactly when the call leaves out one of the
    three arguments without a default (credential, endpoint, result mode),
    with the [TypeError] of the call; given the three, empty strings
    included, it returns the object.  Either way the world is as before: no
    request is made, nothing is printed. *)
Theorem construction_fails_on_missing_argument key endpoint choice market k w :
  (BingSearch_new key endpoint choice market k w).2 = w ∧
  (is_Some key ∧ is_Some endpoint ∧ is_Some choice →
   ∃ obj, (BingSearch_new key endpoint choice market k w).1 = Ok obj) ∧
  (¬ (is_Some key ∧ is_Some endpoint ∧ is_Some choice) →
   (BingSearch_new key endpoint choice market k w).1 = Raise TypeError).
Proof.
  split; [by destruct key, endpoint, choice|]. split.
  - intros ([key' ->] & [endpoint' ->] & [choice' ->]). by eexists.
  - intros Hmissing.
    destruct key; [|done]. destruct endpoint; [|done].
    destruct choice; [|done]. exfalso. apply Hmissing. eauto.
Qed.

Lemma webpage_results_without_bs4 requests_get get_text j k s :
  webpage_results requests_get None j k s =
  match webpage_results requests_get (Some get_text) j k s with
  | (Ok _, s') => (Raise (ImportError import_error_message), s')
  | (Raise e, s') => (Raise e, s')
  end.
Proof.
  unfold webpage_results. rewrite !run_bind.
  destruct (lift _ s) as [[urls|e] s1]; [|done]. rewrite !run_bind.
  by destruct (fetch_pages requests_get urls s1) as [[pages|e] s2].
Qed.

Lemma read_response_without_extractor requests_get get_text r k s :
  bing_result_choice (self s) = WEBPAGE →
  read_response requests_get None r k s =
  if key_found_in r then
    match read_response requests_get (Some get_text) r k s with
    | (Ok _, s') => (Raise (ImportError import_error_message), s')
    | (Raise e, s') => (Raise e, s')
    end
  else read_response requests_get (Some get_text) r k s.
Proof.
  intros Hchoice. rewrite !read_response_run. unfold key_found_in.
  destruct (json_body r) as [j|]; [|done].
  destruct (py_in "webPages" j) as [[|]|e]; try done.
  rewrite Hchoice. apply webpage_results_without_bs4.
Qed.

(** A search in WEBPAGE mode without [bs4], against the same search with an
    extractor: the same when the results key is not found; [ImportError] in
    place of the pages, after the same calls, when it is. *)
Lemma _search_without_extractor requests_get get_text q k s :
  bing_result_choice (self s) = WEBPAGE →
  _search requests_get None q k s =
  if results_key_found
       (requests_get (calls (env s)) (search_request (self s) q k)) then
    match _search requests_get (Some get_text) q k s with
    | (Ok _, s') => (Raise (ImportError import_error_message), s')
    | (Raise e, s') => (Raise e, s')
    end
  else _search requests_get (Some get_text) q k s.
Proof.
  intros Hchoice. rewrite !_search_unfold, !run_bind.
  unfold get_or_report. rewrite get_run.
  destruct (requests_get (calls (env s)) (search_request (self s) q k))
    as [r|e]; [|done].
  cbn [results_key_found].
  by apply read_response_without_extractor.
Qed.

Lemma _search_no_key requests_get bs4 q k s results s1 :
  results_key_found
    (requests_get (calls (env s)) (search_request (self s) q k)) = false →
  _search requests_get bs4 q k s = (Ok results, s1) →
  results = [].
Proof.
  rewrite _search_unfold, run_bind. unfold get_or_report. rewrite get_run.
  destruct (requests_get (calls (env s)) (search_request (self s) q k))
    as [r|e]; [|done].
  cbn [results_key_found]. rewrite read_response_run. unfold key_found_in.
  destruct (json_body r) as [j|]; [|done].
  destruct (py_in "webPages" j) as [[|]|e]; try done.
  by intros _ [= <- _].
Qed.

Lemma _search_self requests_get bs4 q k s :
  self (_search requests_get bs4 q k s).2 = self s.
Proof.
  destruct (_search_trace requests_get bs4 q k s) as (pages & -> & _). done.
Qed.

(** [forward] in WEBPAGE mode without [bs4], query by query. *)
Lemma forward_loop_without_extractor requests_get get_text k q qs acc s :
  bing_result_choice (self s) = WEBPAGE →
  forward_loop requests_get None k (q :: qs) acc s =
  match _search requests_get (Some get_text) q k s with
  | (Ok _, s') =>
      if results_key_found
           (requests_get (calls (env s)) (search_request (self s) q k))
      then (Raise (ImportError import_error_message), s')
      else forward_loop requests_get None k qs acc s'
  | (Raise e, s') => (Raise e, s')
  end.
Proof.
  intros Hchoice. simpl. rewrite run_bind.
  rewrite (_search_without_extractor requests_get get_text) by done.
  destruct (results_key_found _) eqn:Efound.
  - by destruct (_search requests_get (Some get_text) q k s) as [[pages|e] s'].
  - destruct (_search requests_get (Some get_text) q k s)
      as [[pages|e] s'] eqn:E; [|done].
    rewrite (_search_no_key _ _ _ _ _ _ _ Efound E). simpl.
    by rewrite app_nil_r.
Qed.

Lemma forward_loop_same_without_extractor requests_get get_text k qs acc s :
  bing_result_choice (self s) = WEBPAGE →
  (∀ msg, (forward_loop requests_get None k qs acc s).1 ≠
          Raise (ImportError msg)) →
  forward_loop requests_get None k qs acc s =
  forward_loop requests_get (Some get_text) k qs acc s.
Proof.
  revert acc s. induction qs as [|q qs IH]; intros acc s Hchoice Hno; [done|].
  rewrite (forward_loop_without_extractor requests_get get_text) in * by done.
  simpl forward_loop at 2. rewrite run_bind.
  pose proof (_search_self requests_get (Some get_text) q k s) as Hself.
  destruct (_search requests_get (Some get_text) q k s)
    as [[pages|e] s'] eqn:E; [|done].
  destruct (results_key_found _) eqn:Efound.
  - by destruct (Hno import_error_message).
  - rewrite (_search_no_key _ _ _ _ _ _ _ Efound E). simpl.
    rewrite app_nil_r. apply IH; [|done]. simpl in Hself. by rewrite Hself.
Qed.

(** C9. [ImportError] escapes [forward] only in WEBPAGE mode with [bs4]
    not importable, so never in SNIPPET mode.  In that situation [forward]
    goes through the queries as it would with an extractor, up to the first
    search that gets to the extraction (its response holds the results key
    and, with an extractor, it would return its pages): there, after the
    calls of that search, [forward] raises [ImportError]; a search that does
    not get there returns or raises as with an extractor, and a call that
    does not raise [ImportError] is the call with an extractor, result and
    state.  The same holds of one search.  Construction never raises it. *)
Theorem import_error_at_first_use requests_get :
  (∀ bs4 qq k s msg,
     (forward requests_get bs4 qq k s).1 = Raise (ImportError msg) →
     bing_result_choice (self s) = WEBPAGE ∧ bs4 = None) ∧
  (∀ get_text q k s r d pages s',
     bing_result_choice (self s) = WEBPAGE →
     requests_get (calls (env s)) (search_request (self s) q k) = Responded r →
     json_body r = Some (JObj d) →
     is_Some (d !! "webPages") →
     _search requests_get (Some get_text) q k s = (Ok pages, s') →
     _search requests_get None q k s =
       (Raise (ImportError import_error_message), s')) ∧
  (∀ get_text q qs k s,
     bing_result_choice (self s) = WEBPAGE →
     q ≠ "" →
     forward requests_get None (Queries (q :: qs)) k s =
     match _search requests_get (Some get_text) q (effective_k (self s) k) s with
     | (Ok _, s') =>
         if results_key_found
              (requests_get (calls (env s))
                 (search_request (self s) q (effective_k (self s) k)))
         then (Raise (ImportError import_error_message), s')
         else forward requests_get None (Queries qs) k s'
     | (Raise e, s') => (Raise e, s')
     end) ∧
  (∀ get_text qq k s,
     bing_result_choice (self s) = WEBPAGE →
     (∀ msg, (forward requests_get None qq k s).1 ≠ Raise (ImportError msg)) →
     forward requests_get None qq k s =
     forward requests_get (Some get_text) qq k s) ∧
  (∀ key endpoint choice market k w msg,
     (BingSearch_new key endpoint choice market k w).1 ≠
       Raise (ImportError msg)).
Proof.
  split; [|split; [|split; [|split]]].
  - intros bs4 qq k s msg. apply forward_import_error.
  - intros get_text q k s r d pages s' Hchoice Hget Hj Hd.
    rewrite !(_search_responded _ _ _ _ _ _ Hget).
    assert (py_in "webPages" (JObj d) = Ok true) as Hin.
    { simpl. by rewrite bool_decide_eq_true_2. }
    rewrite !(read_response_present _ _ _ _ _ _ Hj Hin).
    rewrite answered_self, Hchoice. unfold webpage_results.
    rewrite !run_bind. destruct (lift _ _) as [[urls|e] s1]; [|done].
    rewrite !run_bind. destruct (fetch_pages _ _ _) as [[ps|e] s2]; [|done].
    simpl. by intros [= _ ->].
  - intros get_text q qs k s Hchoice Hq.
    rewrite (forward_run _ _ (Queries (q :: qs))). simpl queries_of.
    rewrite filter_cons_True by (by destruct q).
    rewrite (forward_loop_without_extractor requests_get get_text) by done.
    pose proof (_search_self requests_get (Some get_text) q
                  (effective_k (self s) k) s) as Hself.
    destruct (_search requests_get (Some get_text) q _ s) as [[pages|e] s'];
      [|done].
    destruct (results_key_found _); [done|].
    rewrite (forward_run _ _ (Queries qs)). simpl in Hself. by rewrite Hself.
  - intros get_text qq k s Hchoice Hno. rewrite !forward_run.
    rewrite (forward_loop_same_without_extractor requests_get get_text);
      [done..|].
    intros msg Hraise. apply (Hno msg). by apply forward_raise.
  - intros key endpoint choice market k w msg.
    by destruct key, endpoint, choice.
Qed.

(** ** The operators at sample inputs *)

Example contains_in_the_middle :
  contains "/v7.0/search" "https://host/v7.0/search?mkt=en-us" = true.
Proof. reflexivity. Qed.

Example contains_not :
  contains "/v7.0/search" "https://host/v7.0" = false.
Proof. reflexivity. Qed.

Example seq_index_from_the_end : seq_index [10; 20; 30] (-1) = Ok 30.
Proof. reflexivity. Qed.

Example seq_index_past_the_end :
  seq_index [10; 20; 30] 3 = Raise IndexError.
Proof. reflexivity. Qed.

Example py_in_none : py_in "webPages" JNull = Raise TypeError.
Proof. reflexivity. Qed.

Example py_in_list :
  py_in "webPages" (JArr [JInt 1; JStr "webPages"]) = Ok true.
Proof. reflexivity. Qed.

Example entry_field_second :
  entry_field (sample_body sample_entries) "snippet" 1 =
  Ok (JStr "second snippet").
Proof. vm_compute. reflexivity. Qed.

Example entry_field_value_is_a_string :
  entry_field (JObj {[ "webPages" := JObj {[ "value" := JStr "ab" ]} ]})
              "snippet" 0 = Raise TypeError.
Proof. vm_compute. reflexivity. Qed.

Example range_3 : range 3 = [0; 1; 2].
Proof. reflexivity. Qed.

(** A single string and the one-element sequence holding it are treated
    alike. *)
Lemma forward_single_string requests_get bs4 q k s :
  forward requests_get bs4 (Query q) k s =
  forward requests_get bs4 (Queries [q]) k s.
Proof. reflexivity. Qed.

(** WEBPAGE mode with an extractor: the pages of the first two entries,
    after one search and two fetches. *)
Example forward_webpage_mode :
  forward (provider (sample_body sample_entries))
          (Some (fun page => ("text of " ++ page)%string))
          (Queries ["rocq"]) (Some 2) (sample_state WEBPAGE) =
  (Ok (MkPrediction [Passage (JStr "text of <p>page</p>");
                     Passage (JStr "text of <p>page</p>")]),
   State (sample_adapter WEBPAGE)
     (World
        [(search_request (sample_adapter WEBPAGE) "rocq" 2,
          Responded (Response "<p>page</p>" (Some (sample_body sample_entries))));
         (page_request (JStr "https://one.example"),
          Responded (Response "<p>page</p>" (Some (sample_body sample_entries))));
         (page_request (JStr "https://two.example"),
          Responded (Response "<p>page</p>" (Some (sample_body sample_entries))))]
        [])).
Proof. vm_compute. reflexivity. Qed.

(** A failed search is reported on the standard output before it is raised
    again. *)
Example forward_failed_search_prints :
  forward (provider_down_after 0 (JObj ∅)) None (Query "rocq") None
          (sample_state SNIPPET) =
  (Raise (RequestException "connection timed out"),
   State (sample_adapter SNIPPET)
     (World
        [(search_request (sample_adapter SNIPPET) "rocq" 3,
          Failed "connection timed out")]
        [("Error in Bing Search:" ++ String "010" " connection timed out")%string])).
Proof. vm_compute. reflexivity. Qed.

(** ** The theorems at sample inputs *)

(** One entry returned, three asked for (the default count), SNIPPET mode. *)
Lemma forward_short_response_raises_example :
  (forward (provider (sample_body [sample_entry "only one" "https://one.example"]))
           None (Queries ["rocq"]) None (sample_state SNIPPET)).1 =
  Raise IndexError.
Proof.
  eapply (forward_short_response_raises _ _ "rocq" [] None (sample_state SNIPPET)).
  - reflexivity.
  - reflexivity.
  - reflexivity.
  - vm_compute. reflexivity.
  - repeat constructor. eexists. vm_compute. reflexivity.
  - repeat constructor. eexists. vm_compute. reflexivity.
  - vm_compute. reflexivity.
Defined.

(** The same response in WEBPAGE mode, with an extractor at hand. *)
Example forward_short_response_webpage :
  forward (provider (sample_body [sample_entry "only one" "https://one.example"]))
          (Some (fun page => page)) (Queries ["rocq"]) None (sample_state WEBPAGE) =
  (Raise IndexError,
   answered (search_request (sample_adapter WEBPAGE) "rocq" 3)
     (Response "<p>page</p>"
        (Some (sample_body [sample_entry "only one" "https://one.example"])))
     (sample_state WEBPAGE)).
Proof. vm_compute. reflexivity. Qed.

(** Two queries, two passages each, out of three entries. *)
Lemma forward_snippet_mode_example :
  (forward (provider (sample_body sample_entries)) None
           (Queries ["rocq"; "coq"]) (Some 2) (sample_state SNIPPET)).1 =
  Ok (MkPrediction [Passage (JStr "first snippet");
                    Passage (JStr "second snippet");
                    Passage (JStr "first snippet");
                    Passage (JStr "second snippet")]).
Proof.
  refine (proj1 (forward_snippet_mode (provider (sample_body sample_entries)) None
                   ["rocq"; "coq"] (Some 2) (sample_state SNIPPET)
                   [[JStr "first snippet"; JStr "second snippet"];
                    [JStr "first snippet"; JStr "second snippet"]] _ _ _)).
  - repeat constructor; discriminate.
  - reflexivity.
  - assert (snippet_response 2
              (Response "<p>page</p>" (Some (sample_body sample_entries)))
              [JStr "first snippet"; JStr "second snippet"]) as Hresponse.
    { exists (sample_body sample_entries), sample_entries.
      split; [reflexivity|]. split; [vm_compute; reflexivity|].
      split; [vm_compute; discriminate|vm_compute; reflexivity]. }
    eapply answers_cons; [reflexivity|exact Hresponse|].
    eapply answers_cons; [reflexivity|exact Hresponse|].
    apply answers_nil.
Defined.

(** WEBPAGE mode: the search is answered, the fetch of the first page
    fails. *)
Lemma forward_aborts_on_failed_call_example :
  (forward (provider_down_after 1 (sample_body sample_entries))
           (Some (fun page => page)) (Queries ["rocq"; "coq"]) None
           (sample_state WEBPAGE)).1 =
  Raise (RequestException "connection timed out").
Proof.
  eapply (forward_aborts_on_failed_call _ _ _ _ _
            [(search_request (sample_adapter WEBPAGE) "rocq" 3,
              Responded (Response "<p>page</p>" (Some (sample_body sample_entries))))]
            (page_request (JStr "https://one.example")) _ []).
  vm_compute. reflexivity.
Defined.

(** The provider answers [{}]. *)
Lemma forward_results_key_absent_example :
  _search (provider (JObj ∅)) None "rocq" 3 (sample_state SNIPPET) =
    (Ok [], answered (search_request (sample_adapter SNIPPET) "rocq" 3)
              (Response "<p>page</p>" (Some (JObj ∅))) (sample_state SNIPPET)) ∧
  forward (provider (JObj ∅)) None (Queries ["rocq"; "coq"]) None
          (sample_state SNIPPET) =
  forward (provider (JObj ∅)) None (Queries ["coq"]) None
          (answered (search_request (sample_adapter SNIPPET) "rocq" 3)
             (Response "<p>page</p>" (Some (JObj ∅))) (sample_state SNIPPET)).
Proof.
  apply (forward_results_key_absent (provider (JObj ∅)) None "rocq" ["coq"] None
           (sample_state SNIPPET) (Response "<p>page</p>" (Some (JObj ∅))) ∅).
  - reflexivity.
  - reflexivity.
  - reflexivity.
  - reflexivity.
Defined.

(** An override of [0] in WEBPAGE mode, with an extractor at hand. *)
Lemma forward_nonpositive_count_example :
  (forward (provider (sample_body sample_entries)) (Some (fun page => page))
           (Queries ["rocq"]) (Some 0) (sample_state WEBPAGE)).1 =
  Ok (MkPrediction []).
Proof.
  destruct (forward_nonpositive_count (provider (sample_body sample_entries))
              (Some (fun page => page)) "rocq" [] (Some 0) (sample_state WEBPAGE)
              (Response "<p>page</p>" (Some (sample_body sample_entries)))
              {[ "webPages" := JObj {[ "value" := JArr sample_entries ]} ]})
    as (_ & _ & ->).
  - vm_compute. discriminate.
  - reflexivity.
  - reflexivity.
  - reflexivity.
  - eexists. vm_compute. reflexivity.
  - intros _. eexists. reflexivity.
  - reflexivity.
Defined.

(** WEBPAGE mode without [bs4], two queries: [forward] raises
    [ImportError] at the first, after its search and its two page fetches;
    the second query is not searched. *)
Lemma import_error_at_first_use_example :
  forward (provider (sample_body sample_entries)) None
          (Queries ["rocq"; "coq"]) (Some 2) (sample_state WEBPAGE) =
  (Raise (ImportError import_error_message),
   State (sample_adapter WEBPAGE)
     (World
        [(search_request (sample_adapter WEBPAGE) "rocq" 2,
          Responded (Response "<p>page</p>" (Some (sample_body sample_entries))));
         (page_request (JStr "https://one.example"),
          Responded (Response "<p>page</p>" (Some (sample_body sample_entries))));
         (page_request (JStr "https://two.example"),
          Responded (Response "<p>page</p>" (Some (sample_body sample_entries))))]
        [])).
Proof.
  destruct (import_error_at_first_use (provider (sample_body sample_entries)))
    as (_ & _ & Hstep & _).
  rewrite (Hstep (fun page => page) "rocq" ["coq"] (Some 2) (sample_state WEBPAGE)).
  - vm_compute. reflexivity.
  - reflexivity.
  - discriminate.
Defined.

(** ** The further properties at sample inputs *)

(** SNIPPET mode, four queries of which one is empty, and a provider that
    is unreachable from the second request on. *)
Lemma forward_snippet_mode_calls_example :
  ∃ new printed,
    (forward (provider_down_after 1 (sample_body sample_entries)) None (Queries ["rocq"; ""; "coq"; "lean"]) (Some 1) (sample_state SNIPPET)).2 = after new printed (sample_state SNIPPET) ∧
    map fst new =
      map (fun q => search_request (self (sample_state SNIPPET)) q
                      (effective_k (self (sample_state SNIPPET)) (Some 1)))
          (take (length new)
                (filter (fun q => truthy q = true) (queries_of (Queries ["rocq"; ""; "coq"; "lean"])))) ∧
    (∀ prediction, (forward (provider_down_after 1 (sample_body sample_entries)) None (Queries ["rocq"; ""; "coq"; "lean"]) (Some 1) (sample_state SNIPPET)).1 = Ok prediction →
                   length new =
                   length (filter (fun q => truthy q = true) (queries_of (Queries ["rocq"; ""; "coq"; "lean"])))) ∧
    (∀ e, (forward (provider_down_after 1 (sample_body sample_entries)) None (Queries ["rocq"; ""; "coq"; "lean"]) (Some 1) (sample_state SNIPPET)).1 = Raise e →
          ∃ before q rest prediction s1,
            filter (fun q => truthy q = true) (queries_of (Queries ["rocq"; ""; "coq"; "lean"])) =
              before ++ q :: rest ∧
            map fst new =
              map (fun q => search_request (self (sample_state SNIPPET)) q
                              (effective_k (self (sample_state SNIPPET)) (Some 1)))
                  (before ++ [q]) ∧
            forward (provider_down_after 1 (sample_body sample_entries)) None (Queries before) (Some 1) (sample_state SNIPPET) =
              (Ok prediction, s1) ∧
            _search (provider_down_after 1 (sample_body sample_entries)) None q (effective_k (self (sample_state SNIPPET)) (Some 1)) s1 =
              (Raise e, (forward (provider_down_after 1 (sample_body sample_entries)) None (Queries ["rocq"; ""; "coq"; "lean"]) (Some 1) (sample_state SNIPPET)).2)).
Proof.
  apply (forward_snippet_mode_calls (provider_down_after 1 (sample_body sample_entries)) None (Queries ["rocq"; ""; "coq"; "lean"]) (Some 1) (sample_state SNIPPET)).
  reflexivity.
Defined.

(** Two queries, two passages each. *)
Lemma forward_passage_count_example :
  (∃ n, (n ≤ length (filter (fun q => truthy q = true) (queries_of (Queries ["rocq"; "coq"]))))%nat ∧
        length (passages (MkPrediction [Passage (JStr "first snippet");
                          Passage (JStr "second snippet");
                          Passage (JStr "first snippet");
                          Passage (JStr "second snippet")])) =
        (n * Z.to_nat (effective_k (self (sample_state SNIPPET)) (Some 2%Z)))%nat) ∧
  ∃ results,
    searches_return (provider (sample_body sample_entries)) None (effective_k (self (sample_state SNIPPET)) (Some 2%Z)) (sample_state SNIPPET)
      (filter (fun q => truthy q = true) (queries_of (Queries ["rocq"; "coq"]))) results
      (forward (provider (sample_body sample_entries)) None (Queries ["rocq"; "coq"]) (Some 2%Z) (sample_state SNIPPET)).2 ∧
    passages (MkPrediction [Passage (JStr "first snippet");
                          Passage (JStr "second snippet");
                          Passage (JStr "first snippet");
                          Passage (JStr "second snippet")]) = map Passage (concat (map snd results)) ∧
    Forall (fun found_results : bool * list json =>
              length found_results.2 =
              if found_results.1 then Z.to_nat (effective_k (self (sample_state SNIPPET)) (Some 2%Z))
              else 0%nat) results.
Proof.
  apply (forward_passage_count (provider (sample_body sample_entries)) None (Queries ["rocq"; "coq"]) (Some 2%Z) (sample_state SNIPPET) (MkPrediction [Passage (JStr "first snippet");
                          Passage (JStr "second snippet");
                          Passage (JStr "first snippet");
                          Passage (JStr "second snippet")])).
  vm_compute. reflexivity.
Defined.

(** WEBPAGE mode with an extractor, two pages. *)
Lemma _search_webpage_mode_example :
  (_search (provider (sample_body sample_entries))
           (Some (fun page => ("text of " ++ page)%string)) "rocq" 2
           (sample_state WEBPAGE)).1 =
  Ok [JStr "text of <p>page</p>"; JStr "text of <p>page</p>"].
Proof.
  edestruct (_search_webpage_mode (provider (sample_body sample_entries))
               (Some (fun page => ("text of " ++ page)%string)) "rocq" 2
               (sample_state WEBPAGE)
               (Response "<p>page</p>" (Some (sample_body sample_entries)))
               (sample_body sample_entries) sample_entries
               [JStr "https://one.example"; JStr "https://two.example"])
    as [Hsearch _].
  - reflexivity.
  - reflexivity.
  - reflexivity.
  - reflexivity.
  - vm_compute. reflexivity.
  - vm_compute. discriminate.
  - vm_compute. reflexivity.
  - eapply pages_cons; [reflexivity|].
    eapply pages_cons; [reflexivity|]. apply pages_nil.
  - rewrite Hsearch. reflexivity.
Defined.

(** The second entry has no snippet. *)
Lemma _search_missing_field_example :
  _search (provider (sample_body
                       [sample_entry "first snippet" "https://one.example";
                        JObj {[ "displayUrl" := JStr "https://two.example" ]}]))
          None "rocq" 2 (sample_state SNIPPET) =
  (Raise KeyError,
   answered (search_request (sample_adapter SNIPPET) "rocq" 2)
     (Response "<p>page</p>"
        (Some (sample_body
                 [sample_entry "first snippet" "https://one.example";
                  JObj {[ "displayUrl" := JStr "https://two.example" ]}])))
     (sample_state SNIPPET)).
Proof.
  eapply (_search_missing_field _ None "rocq" 2 (sample_state SNIPPET) _ _ _ 1%nat).
  - reflexivity.
  - reflexivity.
  - vm_compute. reflexivity.
  - vm_compute. reflexivity.
  - reflexivity.
  - vm_compute. reflexivity.
  - repeat constructor. eexists. vm_compute. reflexivity.
Defined.

(** The body [null]. *)
Lemma _search_malformed_body_example :
  _search (provider JNull) None "rocq" 3 (sample_state SNIPPET) =
  (Raise TypeError,
   answered (search_request (sample_adapter SNIPPET) "rocq" 3)
     (Response "<p>page</p>" (Some JNull)) (sample_state SNIPPET)).
Proof.
  apply (proj2 (_search_malformed_body (provider JNull) None "rocq" 3
                  (sample_state SNIPPET) (Response "<p>page</p>" (Some JNull))
                  eq_refl) JNull eq_refl I).
Defined.

(** WEBPAGE mode without [bs4], a response without the results key. *)
Lemma forward_webpage_without_bs4_example :
  MkPrediction [] = MkPrediction [].
Proof.
  apply (forward_webpage_without_bs4 (provider (JObj ∅)) None
           (Queries ["rocq"]) None (sample_state WEBPAGE) (MkPrediction [])).
  - reflexivity.
  - reflexivity.
  - reflexivity.
Defined.

(** SNIPPET mode, without [bs4] and with an extractor. *)
Lemma forward_snippet_any_bs4_example :
  forward (provider (sample_body sample_entries)) None
          (Queries ["rocq"]) None (sample_state SNIPPET) =
  forward (provider (sample_body sample_entries)) (Some (fun page => page))
          (Queries ["rocq"]) None (sample_state SNIPPET).
Proof.
  apply (forward_snippet_any_bs4 (provider (sample_body sample_entries))
           None (Some (fun page => page)) (Queries ["rocq"]) None
           (sample_state SNIPPET)).
  reflexivity.
Defined.

(** ** Where the code departs from the specification's wording *)

(** An endpoint with the search path followed by a slash is stored as
    supplied, and does not end with the search path. *)
Lemma init_endpoint_not_terminated :
  ∃ obj,
    __init__ "secret" "https://api.bing.microsoft.com/v7.0/search/"
             SNIPPET "en-us" 3 fresh_world = (Ok obj, fresh_world) ∧
    bing_search_v7_endpoint obj =
      "https://api.bing.microsoft.com/v7.0/search/" ∧
    ¬ ends_with (bing_search_v7_endpoint obj) search_path.
Proof.
  eexists. split; [reflexivity|]. split; [reflexivity|].
  intros H. apply ends_with_substring in H. vm_compute in H. discriminate H.
Qed.

(** An empty credential and an empty endpoint are accepted. *)
Lemma construction_accepts_empty_strings :
  BingSearch_new (Some "") (Some "") (Some SNIPPET) None None fresh_world =
  (Ok {| bing_search_v7_subscription_key := "";
         bing_search_v7_endpoint := "/v7.0/search";
         bing_result_choice := SNIPPET;
         search_market := "en-us";
         self_k := 3 |},
   fresh_world).
Proof. reflexivity. Qed.

(** WEBPAGE mode without [bs4], and a response without the results key:
    [forward] returns the empty prediction. *)
Lemma webpage_without_bs4_returns :
  bing_result_choice (self (sample_state WEBPAGE)) = WEBPAGE ∧
  (forward (provider (JObj ∅)) None (Queries ["rocq"]) None
           (sample_state WEBPAGE)).1 = Ok (MkPrediction []).
Proof. split; reflexivity. Qed.
